(** * A verification development of the stock trading simulator
    ([tradingsimulator.py]): the in-browser portfolio store (the script
    embedded in [html_content]) and the Flask routes.

    Numbers: JavaScript numbers and Python floats are IEEE-754 binary64
    values, so both are modelled by Rocq's primitive [float], whose
    operations are binary64 round-to-nearest-even arithmetic, NaN and
    signed zeros included. *)

From Stdlib Require Import ZArith Lia.
From Stdlib Require Import Floats.
From stdpp Require Import base gmap strings list.

Open Scope float_scope.
Set Warnings "-inexact-float,-register-all".

(** ** Strings *)

(** [str.upper()] / [String.prototype.toUpperCase()] on the ASCII range.
    Characters outside it are left as they are, while Python and
    JavaScript would upper-case letters such as [é]; the statements below
    use the upper-cased symbol only as a key, or compare it with
    ["RANDOM"], which no non-ASCII character upper-cases into. *)
Definition char_upper (c : Ascii.ascii) : Ascii.ascii :=
  let n := Ascii.nat_of_ascii c in
  if (97 <=? n)%nat && (n <=? 122)%nat then Ascii.ascii_of_nat (n - 32) else c.

Fixpoint to_upper (s : string) : string :=
  match s with
  | EmptyString => EmptyString
  | String c s' => String (char_upper c) (to_upper s')
  end.

(** ** The client: the portfolio store of the embedded script *)

Module Client.

(** JavaScript truthiness of a number: [0], [-0] and [NaN] are falsy. *)
Definition js_truthy_num (x : float) : bool :=
  negb (is_zero x || is_nan x).

(** [{ quantity, avg_price, currentPrice }] *)
Record holding := mkHolding {
  quantity : float;
  avg_price : float;
  currentPrice : float
}.

(** [let portfolio = { cash: 10000.0, stocks: {} }].  Symbols are
    upper-cased before they are used as keys, so no key is ever one of
    [Object.prototype]'s (all lower or mixed case): [portfolio.stocks[s]]
    is the own property [s], modelled as a finite map. *)
Record portfolio := mkPortfolio {
  cash : float;
  stocks : gmap string holding
}.

Definition initial_portfolio : portfolio := mkPortfolio 10000 ∅.

(** A portfolio holding 10 RANDOM shares bought at 100. *)
Definition held_random : portfolio :=
  mkPortfolio 9000 {[ "RANDOM" := mkHolding 10 100 100 ]}.

(** The [alert(...)] the action ends with. *)
Inductive alert :=
  | InvalidInput
  | PriceUnavailable
  | InsufficientFunds
  | NotEnoughShares
  | Bought (qty : float) (sym : string) (price : float)
  | Sold (qty : float) (sym : string) (price : float).

Definition is_failure (a : alert) : bool :=
  match a with
  | Bought _ _ _ | Sold _ _ _ => false
  | _ => true
  end.

(** The synchronous [GET /get_stock_price/<symbol>]: [None] when the
    status is not 200, [Some p] for the body [{"price": p}]. *)
Definition fetchCurrentPrice (resp : option float) : float :=
  match resp with
  | Some p => if js_truthy_num p then p else 0
  | None => 0
  end.

(** [buyStock()]: [input] is the text of [tradeSymbol], [quantity] the
    result of [parseInt] on [tradeQuantity] ([nan] when it does not
    parse), [resp] the answer of the price lookup. *)
Definition buyStock (pf : portfolio) (input : string) (quantity : float)
    (resp : option float) : portfolio * alert :=
  let symbol := to_upper input in
  if bool_decide (symbol = EmptyString) || (quantity <=? 0) then (pf, InvalidInput)
  else
    let price := fetchCurrentPrice resp in
    if negb (js_truthy_num price) then (pf, PriceUnavailable)
    else
      let totalCost := price * quantity in
      if cash pf <? totalCost then (pf, InsufficientFunds)
      else
        let cash' := cash pf - totalCost in
        let stocks' :=
          match stocks pf !! symbol with
          | Some (mkHolding oldQty oldAvg _) =>
              let newAvg := ((oldQty * oldAvg) + (quantity * price)) / (oldQty + quantity) in
              <[symbol := mkHolding (oldQty + quantity) newAvg price]> (stocks pf)
          | None => <[symbol := mkHolding quantity price price]> (stocks pf)
          end in
        (mkPortfolio cash' stocks', Bought quantity symbol price).

(** [sellStock()] *)
Definition sellStock (pf : portfolio) (input : string) (quantity : float)
    (resp : option float) : portfolio * alert :=
  let symbol := to_upper input in
  if bool_decide (symbol = EmptyString) || (quantity <=? 0) then (pf, InvalidInput)
  else
    match stocks pf !! symbol with
    | None => (pf, NotEnoughShares)
    | Some (mkHolding held avg cur) =>
        if held <? quantity then (pf, NotEnoughShares)
        else
          let price := fetchCurrentPrice resp in
          if negb (js_truthy_num price) then (pf, PriceUnavailable)
          else
            let cash' := cash pf + price * quantity in
            let q' := held - quantity in
            let h' := mkHolding q' avg cur in
            let stocks' :=
              if q' =? 0 then delete symbol (stocks pf)
              else <[symbol := h']> (stocks pf) in
            (mkPortfolio cash' stocks', Sold quantity symbol price)
    end.

(** The [setInterval] callback, run every 10 seconds: when RANDOM is held,
    its [currentPrice] becomes the fetched price ([0] when the fetch
    fails). [updatePortfolioTable()] and [getPortfolioChart()] change
    nothing in the store. *)
Definition tick (pf : portfolio) (resp : option float) : portfolio :=
  match stocks pf !! "RANDOM" with
  | Some (mkHolding q avg _) =>
      mkPortfolio (cash pf) (<["RANDOM" := mkHolding q avg (fetchCurrentPrice resp)]> (stocks pf))
  | None => pf
  end.

(** The price [updatePortfolioTable()] shows for a holding:
    [holding.currentPrice || holding.avg_price]. *)
Definition displayed_price (h : holding) : float :=
  if js_truthy_num (currentPrice h) then currentPrice h else avg_price h.

(** Invariants of the store: every held quantity is positive or [NaN];
    the cash is not negative, or [NaN]. *)
Definition qty_ok (pf : portfolio) : Prop :=
  map_Forall (fun _ h => ((0 <? quantity h) || is_nan (quantity h))%bool = true) (stocks pf).

Definition cash_ok (pf : portfolio) : Prop :=
  ((0 <=? cash pf) || is_nan (cash pf))%bool = true.

End Client.

(** ** The server: Python values and numbers *)

Module Py.

(** A value decoded by [request.get_json()] (JSON objects become dicts,
    kept as association lists in key order; integers without fraction or
    exponent become [int], other numbers [float], ["1e400"] included,
    which decodes to [inf]). *)
Inductive pyval :=
  | PNone
  | PBool (b : bool)
  | PInt (z : Z)
  | PFloat (f : float)
  | PStr (s : string)
  | PList (l : list pyval)
  | PDict (kv : list (string * pyval)).

(** [d[k]] and [d.get(k)] on a dict: the value under [k], if any. *)
Fixpoint dict_get (kv : list (string * pyval)) (k : string) : option pyval :=
  match kv with
  | [] => None
  | (k', v) :: kv' => if String.eqb k k' then Some v else dict_get kv' k
  end.

(** [bool(v)]: [None], [False], zeros and empty containers are falsy;
    [nan] is truthy. *)
Definition truthy (v : pyval) : bool :=
  match v with
  | PNone => false
  | PBool b => b
  | PInt z => negb (Z.eqb z 0)
  | PFloat f => negb (is_zero f)
  | PStr s => negb (String.eqb s EmptyString)
  | PList l => negb (Nat.eqb (length l) 0)
  | PDict kv => negb (Nat.eqb (length kv) 0)
  end.

(** A computation that returns a value or raises (the kind of the
    exception is never observed: Flask answers every uncaught exception
    with a server error). *)
Inductive result (A : Type) := Ok (a : A) | Raise.
Arguments Ok {A} a.
Arguments Raise {A}.

Definition bind {A B} (r : result A) (k : A -> result B) : result B :=
  match r with Ok a => k a | Raise => Raise end.

Global Instance result_mbind : MBind result := fun A B k r => bind r k.
Global Instance result_mret : MRet result := fun A a => Ok a.

(** Python numbers: [int] (unbounded; [bool] is a subclass of it) and
    [float]. *)
Inductive num := NInt (z : Z) | NFloat (f : float).

Definition as_num (v : pyval) : option num :=
  match v with
  | PBool b => Some (NInt (if b then 1 else 0)%Z)
  | PInt z => Some (NInt z)
  | PFloat f => Some (NFloat f)
  | _ => None
  end.

(** [float(int)]: correctly rounded, [OverflowError] beyond the range. *)
Definition int_to_float (z : Z) : result float :=
  match binary_normalize prec emax z 0 false with
  | S754_infinity _ => Raise
  | sf => Ok (SF2Prim sf)
  end.

Definition to_float (n : num) : result float :=
  match n with NInt z => int_to_float z | NFloat f => Ok f end.

(** [+], [-], [*]: exact on two ints, otherwise on floats after
    converting an int operand. *)
Definition num_arith (zop : Z -> Z -> Z) (fop : float -> float -> float) (a b : num) : result num :=
  match a, b with
  | NInt x, NInt y => Ok (NInt (zop x y))
  | _, _ => x ← to_float a; y ← to_float b; Ok (NFloat (fop x y))
  end.

Definition num_add := num_arith Z.add PrimFloat.add.
Definition num_sub := num_arith Z.sub PrimFloat.sub.
Definition num_mul := num_arith Z.mul PrimFloat.mul.

(** Exact comparison of a float with an int, as Python does it
    ([None] for [nan]). *)
Definition float_cmp_int (f : float) (z : Z) : option comparison :=
  match Prim2SF f with
  | S754_nan => None
  | S754_infinity s => Some (if s then Lt else Gt)
  | S754_zero _ => Some (Z.compare 0 z)
  | S754_finite s m e =>
      let v := if s then Z.neg m else Z.pos m in
      if (0 <=? e)%Z then Some (Z.compare (v * 2 ^ e) z)
      else Some (Z.compare v (z * 2 ^ (- e)))
  end.

(** [a < b] *)
Definition num_lt (a b : num) : bool :=
  match a, b with
  | NInt x, NInt y => Z.ltb x y
  | NFloat x, NFloat y => PrimFloat.ltb x y
  | NFloat x, NInt y => match float_cmp_int x y with Some Lt => true | _ => false end
  | NInt x, NFloat y => match float_cmp_int y x with Some Gt => true | _ => false end
  end.

(** [max(values)] / [min(values)]: the first item, replaced by every
    later item that compares greater (resp. less). *)
Definition py_max (v : num) (vs : list num) : num :=
  fold_left (fun m x => if num_lt m x then x else m) vs v.

Definition py_min (v : num) (vs : list num) : num :=
  fold_left (fun m x => if num_lt x m then x else m) vs v.

(** [a / b] rounded half to even, for [a >= 0] and [b > 0]. *)
Definition div_half_even (a b : Z) : Z :=
  let (q, r) := Z.div_eucl a b in
  match Z.compare (2 * r) b with
  | Lt => q
  | Gt => q + 1
  | Eq => if Z.even q then q else q + 1
  end%Z.

(** The float nearest to [n/100] with sign [s] ([n > 0]). *)
Definition nearest_hundredths (s : bool) (n : Z) : float :=
  let '(mz, ez, lz) := SFdiv_core_binary prec emax n 0 100 0 in
  SF2Prim (binary_round_aux prec emax s mz ez lz).

(** [round(x, 2)] on a Python float (CPython's [double_round]): the exact
    binary value of [x] rounded half to even at two decimals, read back
    as the nearest float; infinities and [nan] are returned unchanged. *)
Definition py_round2 (x : float) : float :=
  match Prim2SF x with
  | S754_finite s m e =>
      let n := if (0 <=? e)%Z then (Z.pos m * 100 * 2 ^ e)%Z
               else div_half_even (Z.pos m * 100) (2 ^ (- e)) in
      if Z.eqb n 0 then (if s then neg_zero else zero) else nearest_hundredths s n
  | _ => x
  end.

(** [round(v, 2)] on a Python number: an int is returned as it is. *)
Definition num_round2 (n : num) : num :=
  match n with NInt z => NInt z | NFloat f => NFloat (py_round2 f) end.

(** [numpy.rint] *)
Definition rint (x : float) : float :=
  match Prim2SF x with
  | S754_finite s m e =>
      if (0 <=? e)%Z then x
      else
        let n := div_half_even (Z.pos m) (2 ^ (- e)) in
        SF2Prim (binary_normalize prec emax (if s then Z.opp n else n) 0 s)
  | _ => x
  end.

(** [round(x, 2)] on a [numpy.float64] ([numpy.around]: scale, [rint],
    unscale). *)
Definition np_round2 (x : float) : float := rint (x * 100) / 100.

End Py.

(** ** The server: the Flask routes *)

Module Server.
Import Py.

(** A [yf.Ticker(symbol).history(period=...)] request: the [Close]
    column as (date, close) pairs, empty when there is no data, or the
    exception it raised (with its message). *)
Inductive fetched := Fetched (closes : list (string * float)) | FetchRaised (msg : string).

Definition yfinance := string -> string -> fetched.

(** A [{"chart": ...}] payload: [""], or the base64 PNG of a line plot
    of these points. *)
Inductive chart := NoChart | Plot (xs : list string) (ys : list num).

(** A route's answer: a JSON body, or an uncaught exception (a server
    error). *)
Inductive response (A : Type) := Body (a : A) | ServerError.
Arguments Body {A} a.
Arguments ServerError {A}.

(** [random.uniform(a, b)] for the draw [r] of [random.random()]. *)
Definition uniform (a b r : float) : float := a + (b - a) * r.

(** [round(100 * (1 + random.uniform(-0.1, 0.1)), 2)] *)
Definition random_price (r : float) : float :=
  py_round2 (100 * (1 + uniform (-0.1) 0.1 r)).

(** [get_stock_price(symbol)]; [r] is the draw of [random.random()],
    [yf symbol period] the history request. The second component lists the
    lines printed. *)
Definition get_stock_price (r : float) (yf : yfinance) (symbol : string) : num * list string :=
  let symbol := to_upper symbol in
  if String.eqb symbol "RANDOM" then (NFloat (random_price r), [])
  else
    match yf symbol "1d" with
    | Fetched [] => (NInt 0, [])
    | Fetched (c :: cs) => (NFloat (np_round2 (snd (List.last cs c))), [])
    | FetchRaised e => (NInt 0, ["Error fetching price for " +:+ symbol +:+ ": " +:+ e])
    end.

(** [get_stock_history(symbol)]: dates and closes of the last year. *)
Definition get_stock_history (yf : yfinance) (symbol : string)
    : (list string * list float) * list string :=
  if String.eqb (to_upper symbol) "RANDOM" then (([], []), [])
  else
    match yf symbol "1y" with
    | Fetched [] => (([], []), [])
    | Fetched hist => ((map fst hist, map snd hist), [])
    | FetchRaised e => (([], []), ["Error fetching history for " +:+ symbol +:+ ": " +:+ e])
    end.

(** [GET /get_stock_price/<symbol>]: the body [{"price": p}]. *)
Definition api_get_stock_price (r : float) (yf : yfinance) (symbol : string)
    : response num * list string :=
  let symbol_up := to_upper symbol in
  if String.eqb symbol_up "RANDOM" then (Body (NFloat (random_price r)), [])
  else
    match yf symbol_up "1d" with
    | Fetched [] => (Body (NInt 0), [])
    | Fetched (c :: cs) => (Body (NFloat (np_round2 (snd (List.last cs c)))), [])
    | FetchRaised e =>
        (Body (NInt 0), ["Error fetching price for " +:+ symbol_up +:+ ": " +:+ e])
    end.

(** [GET /get_stock_price_chart/<symbol>]: the body [{"chart": c}]. *)
Definition api_get_stock_price_chart (yf : yfinance) (symbol : string)
    : response chart * list string :=
  if String.eqb (to_upper symbol) "RANDOM" then (Body NoChart, [])
  else
    match yf symbol "1y" with
    | Fetched [] => (Body NoChart, [])
    | FetchRaised e =>
        (Body NoChart, ["Error fetching 1y history for " +:+ symbol +:+ ": " +:+ e])
    | Fetched hist => (Body (Plot (map fst hist) (map (fun p => NFloat (snd p)) hist)), [])
    end.

(** The portfolio-performance chart and the process-wide
    [portfolio_history]. *)
Section PortfolioChart.

(** The clock: a [datetime.now()] reading and its
    [strftime("%H:%M:%S")]. *)
Variable time : Type.
Variable strftime : time -> string.

Definition history := list (time * num).

(** [total += cprice * data["quantity"]] over the items of the
    [stocks] dict, [cprice] being [data.get("currentPrice",
    data["avg_price"])].  A non-numeric operand always ends in an exception
    (at once, or at the final [round]: a str or list total never becomes a
    number again), so it raises here. *)
Fixpoint add_holdings (total : num) (items : list (string * pyval)) : result num :=
  match items with
  | [] => Ok total
  | (_, data) :: items' =>
      match data with
      | PDict d =>
          match dict_get d "avg_price" with
          | None => Raise
          | Some avg =>
              let cprice := match dict_get d "currentPrice" with Some c => c | None => avg end in
              match dict_get d "quantity", as_num cprice with
              | Some qv, Some c =>
                  match as_num qv with
                  | Some q => prod ← num_mul c q; total' ← num_add total prod; add_holdings total' items'
                  | None => Raise
                  end
              | _, _ => Raise
              end
          end
      | _ => Raise
      end
  end.

(** [compute_local_portfolio_value(local_portfolio)] *)
Definition compute_local_portfolio_value (lp : pyval) : result num :=
  match lp with
  | PDict kv =>
      match dict_get kv "cash", dict_get kv "stocks" with
      | Some cashv, Some (PDict stocks) =>
          match as_num cashv with
          | Some total => total' ← add_holdings total stocks; Ok (num_round2 total')
          | None => Raise
          end
      | _, _ => Raise
      end
  | _ => Raise
  end.

(** [margin = 0.05 * (max(values) - min(values))] and the limits
    [min(values) - margin], [max(values) + margin] given to
    [ax.set_ylim], which refuses limits that are not finite. *)
Definition ylim_ok (values : list num) : bool :=
  match values with
  | [] => true
  | v :: vs =>
      let mx := py_max v vs in
      let mn := py_min v vs in
      match (d ← num_sub mx mn; margin ← num_mul (NFloat 0.05) d;
             lo ← num_sub mn margin; hi ← num_add mx margin;
             lo' ← to_float lo; hi' ← to_float hi; Ok (lo', hi')) with
      | Ok (lo, hi) => is_finite lo && is_finite hi
      | Raise => false
      end
  end.

(** [ax.plot(times, values)] converts every value to a float: an int
    beyond the float range raises [OverflowError]. *)
Definition plottable (values : list num) : bool :=
  List.forallb (fun v => match to_float v with Ok _ => true | Raise => false end) values.

(** Drawing the samples: [ax.plot], then the y-limits when there is more
    than one. *)
Definition render_history (hist : history) : response chart :=
  let times := map (fun s => strftime (fst s)) hist in
  let values := map snd hist in
  if negb (plottable values) then ServerError
  else if (1 <? length values)%nat && negb (ylim_ok values) then ServerError
  else Body (Plot times values).

(** [POST /get_portfolio_chart] with the decoded body [body] at time
    [now]: the answer and the history afterwards. *)
Definition get_portfolio_chart (hist : history) (now : time) (body : pyval)
    : response chart * history :=
  if negb (truthy body) then (Body NoChart, hist)
  else
    match compute_local_portfolio_value body with
    | Raise => (ServerError, hist)
    | Ok val =>
        let hist' := hist ++ [(now, val)] in
        (render_history hist', hist')
    end.


(** A sequence of requests served in order. *)
Fixpoint serve (hist : history) (reqs : list (time * pyval)) : list (response chart) * history :=
  match reqs with
  | [] => ([], hist)
  | (now, body) :: reqs' =>
      let '(resp, hist') := get_portfolio_chart hist now body in
      let '(resps, hist'') := serve hist' reqs' in
      (resp :: resps, hist'')
  end.

End PortfolioChart.


Definition no_data : yfinance := fun _ _ => Fetched [].

End Server.

(** ** The wire: the portfolio the client posts

    [JSON.stringify(portfolio)] read back by [request.get_json()]. A
    number prints as an integer literal when it is integral and below
    [1e21] in magnitude ([-0] prints as [0]); Python decodes that as an
    [int]. Any other finite number is decoded as the same [float].
    [NaN] and the infinities print as [null]. *)

Module Wire.
Import Py Client.

Definition json_number (x : float) : pyval :=
  match Prim2SF x with
  | S754_zero _ => PInt 0
  | S754_finite s m e =>
      let n := if (0 <=? e)%Z then (Z.pos m * 2 ^ e)%Z else (Z.pos m / 2 ^ (- e))%Z in
      let integral := if (0 <=? e)%Z then true else (Z.pos m mod 2 ^ (- e) =? 0)%Z in
      if integral && (n <? 10 ^ 21)%Z then PInt (if s then Z.opp n else n) else PFloat x
  | _ => PNone
  end.

Definition json_holding (h : holding) : pyval :=
  PDict [("quantity", json_number (quantity h)); ("avg_price", json_number (avg_price h));
         ("currentPrice", json_number (currentPrice h))].

(** The body for [cash] and the holdings in the order of the keys of
    [portfolio.stocks]. *)
Definition portfolio_json (c : float) (entries : list (string * holding)) : pyval :=
  PDict [("cash", json_number c);
         ("stocks", PDict (List.map (fun e => (fst e, json_holding (snd e))) entries))].

End Wire.

(** ** Exact values of binary64 numbers

    Values are integers scaled by [2 ^ 2200]: every finite binary64
    number, and every exact product of two of them, is a multiple of
    [2 ^ -2200]. [V X] is the value [X > 0] rounded to the binary64 grid,
    to nearest with ties to even, without the overflow bound. *)

Module FloatValues.
Import Py.
Local Open Scope Z_scope.

(** Exact values are integers scaled by [2 ^ (- Lb)]. *)
Definition Lb : Z := -2200.
Definition emn : Z := SpecFloat.emin prec emax.
Definition mag (X : Z) : Z := Z.log2 X + 1 + Lb.
Definition cx (X : Z) : Z := SpecFloat.fexp prec emax (mag X).
Definition V (X : Z) : Z := div_half_even X (2 ^ (cx X - Lb)) * 2 ^ (cx X - Lb).

(** [mrs] is [M] shifted right by [k] bits with its round and sticky bits. *)
Definition rep (M k : Z) (mrs : shr_record) : Prop :=
  let rem := M - shr_m mrs * 2 ^ k in
  0 <= shr_m mrs /\ 0 <= rem < 2 ^ k /\
  (k = 0 -> shr_r mrs = false /\ shr_s mrs = false) /\
  (0 < k -> shr_r mrs = (2 ^ (k - 1) <=? rem) /\ shr_s mrs = negb (rem mod 2 ^ (k - 1) =? 0)).

(** Signed scaled value of a float, and rounding of a signed scaled value. *)
Definition sv (x : spec_float) : Z :=
  match x with
  | S754_finite s m e => cond_Zopp s (Z.pos m * 2 ^ (e - Lb))
  | _ => 0
  end.

Definition RV (X : Z) : Z := if X <? 0 then - V (- X) else V X.

Definition rounds_to (f : spec_float) (X : Z) : Prop :=
  match f with
  | S754_zero _ => RV X = 0
  | S754_finite _ _ e => sv f = RV X /\ emn <= e
  | S754_infinity _ => 2 ^ 3171 < Z.abs (RV X)
  | S754_nan => False
  end.

(** [f] is zero or a finite float whose value lies in [lo, hi]. *)
Definition inb (f : spec_float) (lo hi : Z) : Prop :=
  match f with
  | S754_zero _ => lo <= 0 <= hi
  | S754_finite _ _ e => lo <= sv f <= hi /\ emn <= e
  | _ => False
  end.

Definition hundredths_ok (n : Z) : bool :=
  let f := nearest_hundredths false n in
  (90 <=? f)%float && (f <=? 110)%float && PrimFloat.Leibniz.eqb (py_round2 f) f.

(** Sign classes of a float: [x >= 0] or [nan]; [x > 0] or [nan]. *)
Definition sf_nonneg (x : spec_float) : bool :=
  match x with
  | S754_zero _ | S754_nan => true
  | S754_finite s _ _ | S754_infinity s => negb s
  end.

Definition sf_pos (x : spec_float) : bool :=
  match x with
  | S754_zero _ => false
  | S754_nan => true
  | S754_finite s _ _ | S754_infinity s => negb s
  end.

End FloatValues.

(** * Properties *)

(** ** Comparisons of binary64 values *)

Module FloatFacts.

Lemma SFcompare_swap (a b : spec_float) :
  SFcompare b a = option_map CompOpp (SFcompare a b).
Proof.
  destruct a as [sa|sa| |sa ma ea], b as [sb|sb| |sb mb eb]; simpl;
    try destruct sa; try destruct sb; try reflexivity.
  all: pose proof (Pos.compare_cont_antisym ma mb Eq) as H; simpl in H.
  all: rewrite (Z.compare_antisym eb ea), <- H.
  all: destruct (eb ?= ea)%Z; simpl; try reflexivity;
    destruct (Pos.compare_cont Eq ma mb); reflexivity.
Qed.

Lemma leb_not_ltb (a b : float) : (a <=? b) = true -> (b <? a) = false.
Proof.
  rewrite FloatAxioms.leb_spec, FloatAxioms.ltb_spec; unfold SFleb, SFltb.
  rewrite (SFcompare_swap (Prim2SF a) (Prim2SF b)).
  destruct (SFcompare (Prim2SF a) (Prim2SF b)) as [[]|]; simpl; congruence.
Qed.

Lemma ltb_0_truthy (x : float) : (0 <? x) = true -> Client.js_truthy_num x = true.
Proof.
  unfold Client.js_truthy_num, is_zero, is_nan.
  rewrite FloatAxioms.ltb_spec, !FloatAxioms.eqb_spec.
  change (Prim2SF 0) with (S754_zero false); change (Prim2SF zero) with (S754_zero false).
  destruct (Prim2SF x) as [s|s| |s m e]; try destruct s; cbn; try congruence.
  rewrite Z.compare_refl, Pos.compare_cont_refl; reflexivity.
Qed.

Lemma ltb_0_not_leb (x : float) : (0 <? x) = true -> (x <=? 0) = false.
Proof.
  rewrite FloatAxioms.ltb_spec, FloatAxioms.leb_spec.
  change (Prim2SF 0) with (S754_zero false).
  destruct (Prim2SF x) as [s|s| |s m e]; try destruct s; cbn; congruence.
Qed.

Lemma is_nan_Prim2SF (x : float) : is_nan x = true -> Prim2SF x = S754_nan.
Proof.
  unfold is_nan; rewrite FloatAxioms.eqb_spec.
  destruct (Prim2SF x) as [s|s| |s m e]; try destruct s; cbn; try congruence;
    rewrite Z.compare_refl, Pos.compare_cont_refl; discriminate.
Qed.

Lemma nan_is_nan (x : float) : Prim2SF x = S754_nan -> is_nan x = true.
Proof. unfold is_nan; rewrite FloatAxioms.eqb_spec; intros ->; reflexivity. Qed.

Lemma mul_nan_r (x y : float) : is_nan y = true -> is_nan (x * y) = true.
Proof.
  intros Hy; apply nan_is_nan; rewrite FloatAxioms.mul_spec, (is_nan_Prim2SF y Hy).
  destruct (Prim2SF x) as [s|s| |s m e]; reflexivity.
Qed.

Lemma sub_nan_r (x y : float) : is_nan y = true -> is_nan (x - y) = true.
Proof.
  intros Hy; apply nan_is_nan; rewrite FloatAxioms.sub_spec, (is_nan_Prim2SF y Hy).
  destruct (Prim2SF x) as [s|s| |s m e]; reflexivity.
Qed.

Lemma ltb_nan_r (x y : float) : is_nan y = true -> (x <? y) = false.
Proof.
  intros Hy; rewrite FloatAxioms.ltb_spec, (is_nan_Prim2SF y Hy).
  destruct (Prim2SF x) as [s|s| |s m e]; reflexivity.
Qed.

Lemma leb_nan_l (x y : float) : is_nan x = true -> (x <=? y) = false.
Proof.
  intros Hx; rewrite FloatAxioms.leb_spec, (is_nan_Prim2SF x Hx); reflexivity.
Qed.

End FloatFacts.

(** ** Rounding of binary64 additions and products

    [binary_round_aux] computes [V] (overflow apart), [V] is monotone, and
    so sums and products with a constant map an interval of values into
    the interval between the rounded ends. *)

Module Rounding.
Import Py Server FloatValues.
Local Open Scope Z_scope.

Lemma dhe_spec a b : 0 < b ->
  div_half_even a b = a / b + (if orb (b <? 2 * (a mod b)) (andb (2 * (a mod b) =? b) (negb (Z.even (a / b)))) then 1 else 0).
Proof.
  intros Hb. unfold div_half_even.
  pose proof (Z.div_eucl_eq a b ltac:(lia)) as _.
  destruct (Z.div_eucl a b) as [q r] eqn:E.
  assert (Hq : q = a / b) by (unfold Z.div; rewrite E; reflexivity).
  assert (Hr : r = a mod b) by (unfold Z.modulo; rewrite E; reflexivity).
  subst q r.
  destruct (Z.compare_spec (2 * (a mod b)) b) as [H|H|H].
  - rewrite H, Z.eqb_refl, Z.ltb_irrefl; simpl. destruct (Z.even (a / b)); simpl; lia.
  - assert ((b <? 2 * (a mod b)) = false) by (apply Z.ltb_ge; lia).
    assert ((2 * (a mod b) =? b) = false) by (apply Z.eqb_neq; lia).
    rewrite H0, H1; simpl; lia.
  - assert ((b <? 2 * (a mod b)) = true) by (apply Z.ltb_lt; lia).
    rewrite H0; simpl; lia.
Qed.

Lemma dhe_bounds a b : 0 < b -> a / b <= div_half_even a b <= a / b + 1.
Proof. intros Hb; rewrite (dhe_spec a b Hb); destruct (orb _ _); lia. Qed.

Lemma dhe_mono a a' b : 0 < b -> a <= a' -> div_half_even a b <= div_half_even a' b.
Proof.
  intros Hb Ha.
  pose proof (Z.div_le_mono a a' b Hb Ha) as Hd.
  destruct (Z.eq_dec (a / b) (a' / b)) as [Eq|Ne].
  - rewrite (dhe_spec a b Hb), (dhe_spec a' b Hb), <- Eq.
    pose proof (Z.div_mod a b ltac:(lia)). pose proof (Z.div_mod a' b ltac:(lia)).
    assert (Hm : a mod b <= a' mod b) by nia.
    destruct (b <? 2 * (a mod b)) eqn:E1; cbn [orb andb negb].
    + assert ((b <? 2 * (a' mod b)) = true) by (apply Z.ltb_lt; apply Z.ltb_lt in E1; lia).
      rewrite H1; cbn [orb andb negb]; lia.
    + destruct (2 * (a mod b) =? b) eqn:E2; cbn [orb andb negb].
      * apply Z.eqb_eq in E2.
        destruct (b <? 2 * (a' mod b)) eqn:E3; cbn [orb andb negb]; [destruct (Z.even _); cbn [orb andb negb]; lia |].
        apply Z.ltb_ge in E3. assert (2 * (a' mod b) = b) by lia.
        rewrite H1, Z.eqb_refl; cbn [orb andb negb]; lia.
      * destruct (orb _ _); lia.
  - pose proof (dhe_bounds a b Hb). pose proof (dhe_bounds a' b Hb). lia.
Qed.

Lemma dhe_exact n b : 0 < b -> div_half_even (n * b) b = n.
Proof.
  intros Hb; rewrite (dhe_spec _ b Hb), Z.mod_mul, Z.div_mul by lia.
  replace (b <? 2 * 0) with false by (symmetry; apply Z.ltb_ge; lia).
  replace (2 * 0 =? b) with false by (symmetry; apply Z.eqb_neq; lia).
  simpl; lia.
Qed.

Lemma dhe_le a n b : 0 < b -> a <= n * b -> div_half_even a b <= n.
Proof. intros Hb H; rewrite <- (dhe_exact n b Hb); apply dhe_mono; lia. Qed.

Lemma dhe_ge a n b : 0 < b -> n * b <= a -> n <= div_half_even a b.
Proof. intros Hb H; rewrite <- (dhe_exact n b Hb) at 1; apply dhe_mono; lia. Qed.

Lemma dhe_nonneg a b : 0 < b -> 0 <= a -> 0 <= div_half_even a b.
Proof. intros Hb Ha; apply (dhe_ge a 0 b Hb); lia. Qed.

Lemma cx_ge X : emn <= cx X.
Proof. unfold cx, SpecFloat.fexp, emn; lia. Qed.

Lemma cx_eq X : cx X = Z.max (mag X - 53) (-1074).
Proof. reflexivity. Qed.

Lemma emn_val : emn = -1074.
Proof. reflexivity. Qed.

Lemma prec_val : prec = 53.
Proof. reflexivity. Qed.

Lemma pow_pos' k : 0 <= k -> 0 < 2 ^ k.
Proof. intros; apply Z.pow_pos_nonneg; lia. Qed.

Lemma pow_le_mono' a b : 0 <= a <= b -> 2 ^ a <= 2 ^ b.
Proof. intros; apply Z.pow_le_mono_r; lia. Qed.

Lemma V_nonneg X : 0 <= X -> 0 <= V X.
Proof.
  intros H; unfold V. pose proof (cx_ge X). rewrite emn_val in *.
  pose proof (pow_pos' (cx X - Lb) ltac:(unfold Lb; lia)).
  pose proof (dhe_nonneg X _ H1 H). nia.
Qed.

Lemma V_mono X X' : 0 < X -> X <= X' -> V X <= V X'.
Proof.
  intros HX HXX'. unfold V.
  pose proof (cx_ge X) as Hc. pose proof (cx_ge X') as Hc'. rewrite emn_val in *.
  assert (Hmag : mag X <= mag X') by (unfold mag; pose proof (Z.log2_le_mono X X' HXX'); lia).
  assert (Hcc : cx X <= cx X') by (rewrite !cx_eq; lia).
  set (k := cx X - Lb). set (k' := cx X' - Lb).
  assert (Hk : 0 < 2 ^ k) by (apply pow_pos'; unfold k, Lb; lia).
  assert (Hk' : 0 < 2 ^ k') by (apply pow_pos'; unfold k', Lb; lia).
  destruct (Z.eq_dec (cx X) (cx X')) as [Eq|Ne].
  - unfold k'; rewrite <- Eq; fold k.
    pose proof (dhe_mono X X' _ Hk HXX'). nia.
  - assert (Hlt : cx X < cx X') by lia.
    assert (Hcx' : cx X' = mag X' - 53) by (rewrite !cx_eq in *; lia).
    assert (Hmm : mag X < mag X') by (rewrite !cx_eq in *; lia).
    (* lower bound for X' *)
    pose proof (Z.log2_spec X' ltac:(lia)) as [HX'lo _].
    assert (Hl' : Z.log2 X' = k' + 52) by (unfold k', mag in *; lia).
    rewrite Hl', Z.pow_add_r in HX'lo by (unfold k', Lb; lia).
    pose proof (dhe_ge X' (2 ^ 52) _ Hk' ltac:(lia)) as Hq'.
    assert (Hlow' : 2 ^ 52 * 2 ^ k' <= div_half_even X' (2 ^ k') * 2 ^ k') by nia.
    (* upper bound for X *)
    pose proof (Z.log2_spec X ltac:(lia)) as [_ HXhi]. rewrite <- Z.add_1_r in HXhi.
    assert (Hup : div_half_even X (2 ^ k) * 2 ^ k <= 2 ^ 52 * 2 ^ k').
    { pose proof (cx_eq X) as HcxX.
      destruct (Z_le_gt_dec (cx X) (mag X)) as [Hle|Hgt].
      - set (j := mag X - cx X).
        assert (Z.log2 X + 1 = j + k) by (unfold j, k, mag; lia).
        rewrite H, Z.pow_add_r in HXhi by (unfold j, k, Lb in *; lia).
        pose proof (dhe_le X (2 ^ j) _ Hk ltac:(lia)).
        assert (2 ^ j * 2 ^ k <= 2 ^ 52 * 2 ^ k').
        { rewrite <- !Z.pow_add_r by (unfold j, k, k', Lb in *; lia).
          apply pow_le_mono'; unfold j, k, k', Lb in *; lia. }
        nia.
      - assert (Z.log2 X + 1 <= k) by (unfold k, mag in *; lia).
        assert (X <= 1 * 2 ^ k).
        { pose proof (pow_le_mono' (Z.log2 X + 1) k ltac:(pose proof (Z.log2_nonneg X); lia)). lia. }
        pose proof (dhe_le X 1 _ Hk H0).
        assert (2 ^ k <= 2 ^ 52 * 2 ^ k').
        { rewrite <- Z.pow_add_r by (unfold k, k', Lb in *; lia).
          apply pow_le_mono'; unfold k, k', Lb in *; lia. }
        nia. }
    lia.
Qed.

Lemma shr_1_spec m r s : 0 <= m ->
  shr_1 {| shr_m := m; shr_r := r; shr_s := s |} =
  {| shr_m := m / 2; shr_r := Z.odd m; shr_s := orb r s |}.
Proof.
  intros Hm. destruct m as [|p|p]; [reflexivity| |lia].
  destruct p as [p|p|].
  - transitivity {| shr_m := Z.pos p; shr_r := true; shr_s := orb r s |}; [reflexivity|].
    change (Z.pos p~1) with (2 * Z.pos p + 1).
    rewrite (Z.add_comm _ 1), Z.odd_add_mul_2, (Z.mul_comm _ (Z.pos p)), Z.div_add by lia. reflexivity.
  - transitivity {| shr_m := Z.pos p; shr_r := false; shr_s := orb r s |}; [reflexivity|].
    change (Z.pos p~0) with (2 * Z.pos p).
    rewrite Z.odd_mul. rewrite (Z.mul_comm 2), Z.div_mul by lia. reflexivity.
  - reflexivity.
Qed.

Lemma iter_pos_nat {A} (f : A -> A) p x : SpecFloat.iter_pos f p x = Nat.iter (Pos.to_nat p) f x.
Proof.
  revert x; induction p as [p IH|p IH|]; intros x; simpl SpecFloat.iter_pos.
  - rewrite Pos2Nat.inj_xI, !IH. rewrite <- Nat.iter_add.
    replace (2 * Pos.to_nat p)%nat with (Pos.to_nat p + Pos.to_nat p)%nat by lia.
    rewrite Nat.iter_succ_r. reflexivity.
  - rewrite Pos2Nat.inj_xO, !IH. rewrite <- Nat.iter_add. f_equal; lia.
  - reflexivity.
Qed.

Lemma rep_step M k mrs : 0 <= k -> rep M k mrs -> rep M (k + 1) (shr_1 mrs).
Proof.
  intros Hk Hr. destruct mrs as [m r s].
  rewrite shr_1_spec by (destruct Hr; cbn [shr_m] in *; lia).
  destruct Hr as [Hm [Hrem [H0 Hpos]]]; cbn [shr_m shr_r shr_s] in *.
  unfold rep; cbn [shr_m shr_r shr_s].
  set (rem := M - m * 2 ^ k) in *.
  pose proof (Z.div_mod m 2 ltac:(lia)) as Hdm.
  pose proof (Z.mod_pos_bound m 2 ltac:(lia)) as Hmb.
  assert (Hodd : Z.odd m = (m mod 2 =? 1)).
  { rewrite Zmod_odd. destruct (Z.odd m); reflexivity. }
  assert (Hp : 2 ^ (k + 1) = 2 * 2 ^ k) by (rewrite Z.pow_add_r by lia; lia).
  assert (Hrem' : M - m / 2 * 2 ^ (k + 1) = m mod 2 * 2 ^ k + rem) by (unfold rem; nia).
  rewrite Hrem', Hp. replace (k + 1 - 1) with k by lia.
  split; [apply Z.div_pos; lia|]. split; [nia|]. split; [lia|].
  intros _. split.
  - rewrite Hodd. destruct (Z.eq_dec (m mod 2) 1) as [E|E].
    + rewrite E, Z.eqb_refl. symmetry; apply Z.leb_le; lia.
    + assert (m mod 2 = 0) by lia. rewrite H, (proj2 (Z.eqb_neq 0 1)) by lia.
      symmetry; apply Z.leb_gt; lia.
  - rewrite (Z.add_comm (m mod 2 * 2 ^ k) rem), Z.mod_add by lia.
    rewrite Z.mod_small by lia.
    destruct (Z.eq_dec k 0) as [Ek|Ek].
    + destruct (H0 Ek) as [-> ->]. subst k. simpl in *. replace rem with 0 by lia. reflexivity.
    + destruct (Hpos ltac:(lia)) as [-> ->].
      assert (Hk2 : 2 ^ k = 2 * 2 ^ (k - 1)) by (rewrite <- Z.pow_succ_r by lia; f_equal; lia).
      pose proof (pow_pos' (k - 1) ltac:(lia)).
      pose proof (Z.div_mod rem (2 ^ (k - 1)) ltac:(lia)).
      pose proof (Z.mod_pos_bound rem (2 ^ (k - 1)) ltac:(lia)).
      assert (Hq : rem / 2 ^ (k - 1) = 0 \/ rem / 2 ^ (k - 1) = 1) by nia.
      destruct (Z.leb_spec (2 ^ (k - 1)) rem);
      destruct (Z.eqb_spec (rem mod 2 ^ (k - 1)) 0);
      destruct (Z.eqb_spec rem 0); simpl; try reflexivity; nia.
Qed.

Lemma rep_iter M (n : nat) : 0 <= M ->
  rep M (Z.of_nat n) (Nat.iter n shr_1 {| shr_m := M; shr_r := false; shr_s := false |}).
Proof.
  intros HM. induction n as [|n IH].
  - unfold rep; simpl. rewrite Z.mul_1_r, Z.sub_diag. repeat split; try lia.
  - rewrite Nat.iter_succ. replace (Z.of_nat (S n)) with (Z.of_nat n + 1) by lia.
    apply rep_step; [lia | exact IH].
Qed.

Lemma rep_div M k mrs : 0 <= k -> rep M k mrs -> shr_m mrs = M / 2 ^ k /\ M mod 2 ^ k = M - shr_m mrs * 2 ^ k.
Proof.
  intros Hk [Hm [Hrem _]].
  assert (shr_m mrs = M / 2 ^ k).
  { apply Z.div_unique with (M - shr_m mrs * 2 ^ k); lia. }
  split; [exact H|]. rewrite Z.mod_eq by lia. rewrite <- H; lia.
Qed.

Lemma rep_round M k mrs : 0 < k -> rep M k mrs ->
  round_nearest_even (shr_m mrs) (loc_of_shr_record mrs) = div_half_even M (2 ^ k).
Proof.
  intros Hk Hr. destruct (rep_div M k mrs ltac:(lia) Hr) as [Hq Hmod].
  destruct Hr as [Hm [Hrem [_ Hpos]]]. destruct (Hpos Hk) as [Er Es].
  pose proof (pow_pos' k ltac:(lia)) as Hpk.
  rewrite (dhe_spec M _ Hpk), Hmod, <- Hq.
  destruct mrs as [m r s]; cbn [shr_m shr_r shr_s] in *.
  set (rem := M - m * 2 ^ k) in *.
  assert (Hk2 : 2 ^ k = 2 * 2 ^ (k - 1)) by (rewrite <- Z.pow_succ_r by lia; f_equal; lia).
  pose proof (pow_pos' (k - 1) ltac:(lia)).
  pose proof (Z.div_mod rem (2 ^ (k - 1)) ltac:(lia)).
  pose proof (Z.mod_pos_bound rem (2 ^ (k - 1)) ltac:(lia)).
  assert (Hq2 : rem / 2 ^ (k - 1) = 0 \/ rem / 2 ^ (k - 1) = 1) by nia.
  subst r s.
  destruct (Z.leb_spec (2 ^ (k - 1)) rem);
  destruct (Z.eqb_spec (rem mod 2 ^ (k - 1)) 0); cbn [orb andb negb loc_of_shr_record round_nearest_even].
  - replace (2 ^ k <? 2 * rem) with false by (symmetry; apply Z.ltb_ge; nia).
    replace (2 * rem =? 2 ^ k) with true by (symmetry; apply Z.eqb_eq; nia).
    cbn [orb andb negb loc_of_shr_record round_nearest_even]. destruct (Z.even m); cbn [orb andb negb loc_of_shr_record round_nearest_even]; lia.
  - replace (2 ^ k <? 2 * rem) with true by (symmetry; apply Z.ltb_lt; nia). cbn [orb andb negb loc_of_shr_record round_nearest_even]; lia.
  - replace (2 ^ k <? 2 * rem) with false by (symmetry; apply Z.ltb_ge; nia).
    replace (2 * rem =? 2 ^ k) with false by (symmetry; apply Z.eqb_neq; nia). cbn [orb andb negb loc_of_shr_record round_nearest_even]; lia.
  - replace (2 ^ k <? 2 * rem) with false by (symmetry; apply Z.ltb_ge; nia).
    replace (2 * rem =? 2 ^ k) with false by (symmetry; apply Z.eqb_neq; nia). cbn [orb andb negb loc_of_shr_record round_nearest_even]; lia.
Qed.

Lemma digits2_pos_size p : digits2_pos p = Pos.size p.
Proof. induction p; simpl; congruence. Qed.

Lemma Zdigits2_log2 p : Zdigits2 (Z.pos p) = Z.log2 (Z.pos p) + 1.
Proof.
  unfold Zdigits2. rewrite digits2_pos_size.
  destruct p; simpl; try reflexivity; rewrite Pos2Z.inj_succ; lia.
Qed.

Lemma shr_nonpos mrs e n : n <= 0 -> shr mrs e n = (mrs, e).
Proof. intros H; destruct n; [reflexivity|lia|reflexivity]. Qed.

Lemma dhe_scale a b t : 0 < b -> 0 < t -> div_half_even (a * t) (b * t) = div_half_even a b.
Proof.
  intros Hb Ht. rewrite (dhe_spec (a * t) (b * t) ltac:(nia)), (dhe_spec _ _ Hb).
  rewrite Z.div_mul_cancel_r, Z.mul_mod_distr_r by lia.
  replace (b * t <? 2 * (a mod b * t)) with (b <? 2 * (a mod b)).
  2:{ destruct (Z.ltb_spec b (2 * (a mod b))); destruct (Z.ltb_spec (b * t) (2 * (a mod b * t))); nia. }
  replace (2 * (a mod b * t) =? b * t) with (2 * (a mod b) =? b); [reflexivity|].
  destruct (Z.eqb_spec (2 * (a mod b)) b); destruct (Z.eqb_spec (2 * (a mod b * t)) (b * t)); nia.
Qed.

Lemma log2_mul_pow2' p k : 0 <= k -> Z.log2 (Z.pos p * 2 ^ k) = Z.log2 (Z.pos p) + k.
Proof. intros; rewrite Z.log2_mul_pow2 by lia; lia. Qed.

(** [binary_round_aux] on an exact positive input rounds its value to
    nearest, ties to even. *)
Lemma round_aux_V s pm E : Lb <= E ->
  let X := Z.pos pm * 2 ^ (E - Lb) in
  match binary_round_aux prec emax s (Z.pos pm) E loc_Exact with
  | S754_zero s' => s' = s /\ V X = 0
  | S754_finite s' m e => s' = s /\ Z.pos m * 2 ^ (e - Lb) = V X /\ emn <= e
  | S754_infinity s' => s' = s /\ 2 ^ (emax - prec - Lb) < V X
  | S754_nan => False
  end.
Proof.
  intros HE X.
  assert (HmagX : mag X = Z.log2 (Z.pos pm) + 1 + E)
    by (unfold mag, X; rewrite log2_mul_pow2' by lia; lia).
  pose proof (cx_eq X) as HcxX.
  pose proof (Z.log2_spec (Z.pos pm) ltac:(lia)) as [Hplo Hphi]. rewrite <- Z.add_1_r in Hphi.
  pose proof (Z.log2_nonneg (Z.pos pm)).
  unfold binary_round_aux, shr_fexp.
  rewrite Zdigits2_log2.
  replace (SpecFloat.fexp prec emax (Z.log2 (Z.pos pm) + 1 + E)) with (cx X)
    by (unfold cx; rewrite HmagX; reflexivity).
  set (c := cx X) in *.
  change (emax - prec - Lb) with 3171. change (emax - prec) with 971.
  assert (Hc : -1074 <= c) by lia.
  destruct (Z_le_gt_dec c E) as [HcE|HcE].
  - (* no shift: the input is exact at its exponent *)
    rewrite shr_nonpos by lia. cbn [shr_record_of_loc shr_m loc_of_shr_record round_nearest_even].
    rewrite shr_nonpos.
    2:{ rewrite Zdigits2_log2, HmagX in *. unfold SpecFloat.fexp. change (SpecFloat.emin prec emax) with (-1074).
        change prec with 53. lia. }
    cbn [shr_record_of_loc shr_m].
    assert (HV : V X = X).
    { unfold V. fold c.
      assert (X = Z.pos pm * 2 ^ (E - c) * 2 ^ (c - Lb)).
      { unfold X. rewrite <- Z.mul_assoc, <- Z.pow_add_r by (unfold Lb in *; lia). f_equal; f_equal; lia. }
      rewrite H0 at 1. rewrite dhe_exact by (apply pow_pos'; unfold Lb in *; lia). symmetry; exact H0. }
    destruct (Z.leb_spec E 971).
    + split; [reflexivity|]. rewrite HV. split; [reflexivity|]. rewrite emn_val; lia.
    + split; [reflexivity|]. rewrite HV. unfold X.
      pose proof (pow_le_mono' 3171 (E - Lb) ltac:(unfold Lb in *; lia)).
      assert (2 ^ 3171 < 2 ^ (E - Lb)) by (apply Z.pow_lt_mono_r; unfold Lb in *; lia).
      nia.
  - (* shift right by k = c - E bits, then round *)
    set (k := c - E).
    assert (Hk : 0 < k) by lia.
    destruct k as [|kp|kp] eqn:Ek; try lia. cbn [shr].
    rewrite iter_pos_nat.
    pose proof (rep_iter (Z.pos pm) (Pos.to_nat kp) ltac:(lia)) as Hrep.
    rewrite positive_nat_Z in Hrep.
    cbn [shr_record_of_loc].
    rewrite (rep_round (Z.pos pm) (Z.pos kp) _ ltac:(lia) Hrep).
    replace (E + Z.pos kp) with c by lia.
    set (q := div_half_even (Z.pos pm) (2 ^ Z.pos kp)).
    assert (HVq : V X = q * 2 ^ (c - Lb)).
    { unfold V; fold c. f_equal. unfold q, X.
      replace (c - Lb) with (Z.pos kp + (E - Lb)) by lia.
      rewrite Z.pow_add_r by (unfold Lb in *; lia).
      apply dhe_scale; apply pow_pos'; unfold Lb in *; lia. }
    assert (Hq0 : 0 <= q) by (apply dhe_nonneg; [apply pow_pos'|]; lia).
    assert (Hq53 : q <= 2 ^ 53).
    { apply dhe_le; [apply pow_pos'; lia|].
      rewrite <- Z.pow_add_r by lia.
      pose proof (pow_le_mono' (Z.log2 (Z.pos pm) + 1) (53 + Z.pos kp) ltac:(lia)). lia. }
    rewrite HVq. clearbody q.
    destruct (Z.eq_dec q (2 ^ 53)) as [Eq53|Ne53].
    + rewrite Eq53. 
      change (Zdigits2 (2 ^ 53)) with 54.
      replace (SpecFloat.fexp prec emax (54 + c) - c) with 1
        by (unfold SpecFloat.fexp; change (SpecFloat.emin prec emax) with (-1074); change prec with 53; lia).
      cbn [shr_record_of_loc].
      change (shr {| shr_m := 2 ^ 53; shr_r := false; shr_s := false |} c 1)
        with ({| shr_m := Z.pos 4503599627370496; shr_r := false; shr_s := false |}, c + 1).
      cbv beta iota zeta. cbn [shr_m].
      change (Z.pos 4503599627370496) with (2 ^ 52).
      destruct (Z.leb_spec (c + 1) 971).
      * split; [reflexivity|]. split; [|rewrite emn_val; lia].
        replace (c + 1 - Lb) with (1 + (c - Lb)) by lia.
        rewrite Z.pow_add_r by (unfold Lb in *; lia). lia.
      * split; [reflexivity|].
        assert (2 ^ 3171 < 2 ^ 53 * 2 ^ (c - Lb)).
        { rewrite <- Z.pow_add_r by (unfold Lb in *; lia). apply Z.pow_lt_mono_r; unfold Lb in *; lia. }
        lia.
    + destruct q as [|qp|qp] eqn:Eq; try lia.
      * rewrite shr_nonpos.
        2:{ change (Zdigits2 0) with 0. unfold SpecFloat.fexp.
            change (SpecFloat.emin prec emax) with (-1074). change prec with 53. lia. }
        cbn [shr_record_of_loc shr_m]. split; [reflexivity | lia].
      * rewrite shr_nonpos.
        2:{ rewrite Zdigits2_log2. unfold SpecFloat.fexp. change (SpecFloat.emin prec emax) with (-1074).
            change prec with 53.
            assert (Z.log2 (Z.pos qp) < 53) by (apply Z.log2_lt_pow2; lia). lia. }
        cbn [shr_record_of_loc shr_m].
        destruct (Z.leb_spec c 971).
        -- split; [reflexivity|]. split; [reflexivity|rewrite emn_val; lia].
        -- split; [reflexivity|].
           assert (2 ^ 3171 < 2 ^ (c - Lb)) by (apply Z.pow_lt_mono_r; unfold Lb in *; lia).
           nia.
Qed.

Lemma V_0 : V 0 = 0.
Proof. reflexivity. Qed.

Lemma RV_mono X X' : X <= X' -> RV X <= RV X'.
Proof.
  intros H. unfold RV.
  destruct (Z.ltb_spec X 0); destruct (Z.ltb_spec X' 0).
  - pose proof (V_mono (- X') (- X) ltac:(lia) ltac:(lia)). lia.
  - pose proof (V_nonneg (- X) ltac:(lia)). pose proof (V_nonneg X' ltac:(lia)). lia.
  - lia.
  - destruct (Z.eq_dec X 0) as [->|]; [rewrite V_0; apply V_nonneg; lia|].
    apply V_mono; lia.
Qed.

Lemma round_aux_rounds s pm E : Lb <= E ->
  rounds_to (binary_round_aux prec emax s (Z.pos pm) E loc_Exact) (cond_Zopp s (Z.pos pm * 2 ^ (E - Lb))).
Proof.
  intros HE. pose proof (round_aux_V s pm E HE) as H. cbv zeta in H.
  assert (Hp : 0 < Z.pos pm * 2 ^ (E - Lb)) by (pose proof (pow_pos' (E - Lb) ltac:(lia)); lia).
  assert (HRV : RV (cond_Zopp s (Z.pos pm * 2 ^ (E - Lb))) = cond_Zopp s (V (Z.pos pm * 2 ^ (E - Lb)))).
  { unfold RV; destruct s; cbn [cond_Zopp].
    - replace (- (Z.pos pm * 2 ^ (E - Lb)) <? 0) with true by (symmetry; apply Z.ltb_lt; lia).
      rewrite Z.opp_involutive; reflexivity.
    - replace (Z.pos pm * 2 ^ (E - Lb) <? 0) with false by (symmetry; apply Z.ltb_ge; lia). reflexivity. }
  unfold rounds_to. rewrite HRV.
  destruct (binary_round_aux prec emax s (Z.pos pm) E loc_Exact) as [s'|s'| |s' m e]; cbn [sv].
  - destruct H as [_ ->]. destruct s; reflexivity.
  - destruct H as [_ H]. change (emax - prec - Lb) with 3171 in H. pose proof (V_nonneg (Z.pos pm * 2 ^ (E - Lb)) ltac:(lia)).
    destruct s; cbn [cond_Zopp]; lia.
  - exact H.
  - destruct H as [-> [H1 H2]]. rewrite H1. split; [reflexivity|exact H2].
Qed.

Lemma iter_xO m d : Z.pos (Pos.iter xO m d) = Z.pos m * 2 ^ Z.pos d.
Proof.
  induction d using Pos.peano_ind.
  - simpl. lia.
  - rewrite Pos.iter_succ, Pos2Z.inj_succ, Z.pow_succ_r by lia.
    change (Z.pos (Pos.iter xO m d)~0) with (2 * Z.pos (Pos.iter xO m d)). rewrite IHd. lia.
Qed.

Lemma shl_align_spec m e e' : Lb <= e -> Lb <= e' ->
  Lb <= snd (shl_align m e e') /\
  Z.pos (fst (shl_align m e e')) * 2 ^ (snd (shl_align m e e') - Lb) = Z.pos m * 2 ^ (e - Lb) /\
  snd (shl_align m e e') = Z.min e e'.
Proof.
  intros He He'. unfold shl_align.
  destruct (e' - e) as [|d|d] eqn:Ed; cbn [fst snd].
  - repeat split; lia.
  - repeat split; lia.
  - split; [lia|]. split; [|lia].
    rewrite iter_xO, <- Z.mul_assoc, <- Z.pow_add_r by lia. do 2 f_equal; lia.
Qed.

Lemma binary_round_rounds s pm E : Lb <= E ->
  rounds_to (binary_round prec emax s pm E) (cond_Zopp s (Z.pos pm * 2 ^ (E - Lb))).
Proof.
  intros HE. unfold binary_round.
  set (e' := SpecFloat.fexp prec emax (Z.pos (digits2_pos pm) + E)).
  assert (He' : Lb <= e') by (unfold e', SpecFloat.fexp; change (SpecFloat.emin prec emax) with (-1074); unfold Lb; lia).
  pose proof (shl_align_spec pm E e' HE He') as [H1 [H2 _]].
  destruct (shl_align pm E e') as [mz ez]; simpl in *.
  rewrite <- H2. apply round_aux_rounds; exact H1.
Qed.

Lemma binary_normalize_rounds n e : Lb <= e ->
  rounds_to (binary_normalize prec emax n e false) (n * 2 ^ (e - Lb)).
Proof.
  intros He. destruct n as [|p|p]; cbn [binary_normalize].
  - reflexivity.
  - apply (binary_round_rounds false p e He).
  - replace (Z.neg p * 2 ^ (e - Lb)) with (cond_Zopp true (Z.pos p * 2 ^ (e - Lb)))
      by (cbn [cond_Zopp]; lia).
    apply (binary_round_rounds true p e He).
Qed.

Lemma SFadd_rounds sx mx ex sy my ey : Lb <= ex -> Lb <= ey ->
  rounds_to (SFadd prec emax (S754_finite sx mx ex) (S754_finite sy my ey))
            (sv (S754_finite sx mx ex) + sv (S754_finite sy my ey)).
Proof.
  intros Hx Hy. unfold SFadd.
  set (ez := Z.min ex ey).
  pose proof (shl_align_spec mx ex ez Hx ltac:(unfold ez; lia)) as [_ [Ax Ex]].
  pose proof (shl_align_spec my ey ez Hy ltac:(unfold ez; lia)) as [_ [Ay Ey]].
  rewrite Ex in Ax. rewrite Ey in Ay.
  replace (Z.min ex ez) with ez in Ax by (unfold ez; lia).
  replace (Z.min ey ez) with ez in Ay by (unfold ez; lia).
  replace (sv (S754_finite sx mx ex) + sv (S754_finite sy my ey))
    with ((cond_Zopp sx (Z.pos (fst (shl_align mx ex ez))) + cond_Zopp sy (Z.pos (fst (shl_align my ey ez)))) * 2 ^ (ez - Lb)).
  - apply binary_normalize_rounds. unfold ez; lia.
  - cbn [sv]. rewrite <- Ax, <- Ay. destruct sx, sy; cbn [cond_Zopp]; lia.
Qed.

Lemma SFmul_rounds sx mx ex sy my ey : Lb <= ex + ey ->
  rounds_to (SFmul prec emax (S754_finite sx mx ex) (S754_finite sy my ey))
            (cond_Zopp (xorb sx sy) (Z.pos mx * Z.pos my * 2 ^ (ex + ey - Lb))).
Proof. intros H. apply (round_aux_rounds (xorb sx sy) (mx * my) (ex + ey) H). Qed.

Lemma RV_0 : RV 0 = 0.
Proof. reflexivity. Qed.

Lemma rounds_inb f X lo hi : rounds_to f X -> lo <= X <= hi ->
  - 2 ^ 3171 <= RV lo -> RV hi <= 2 ^ 3171 -> inb f (RV lo) (RV hi).
Proof.
  intros Hr [Hlo Hhi] Hl Hh.
  pose proof (RV_mono _ _ Hlo). pose proof (RV_mono _ _ Hhi).
  destruct f as [s|s| |s m e]; cbn [rounds_to inb] in Hr |- *.
  - lia.
  - lia.
  - exact Hr.
  - destruct Hr as [-> He]. split; [lia|exact He].
Qed.

Lemma mul_inb mc ec f lo hi : -1074 <= ec -> inb f lo hi ->
  let S := Z.pos mc * 2 ^ (ec - Lb) in
  - 2 ^ 3171 <= RV (S * lo / 2 ^ (- Lb)) -> RV (S * hi / 2 ^ (- Lb)) <= 2 ^ 3171 ->
  inb (SFmul prec emax (S754_finite false mc ec) f) (RV (S * lo / 2 ^ (- Lb))) (RV (S * hi / 2 ^ (- Lb))).
Proof.
  intros Hec Hf S Hl Hh.
  assert (HS : 0 < S) by (unfold S; pose proof (pow_pos' (ec - Lb) ltac:(unfold Lb; lia)); lia).
  assert (HB : 0 < 2 ^ (- Lb)) by (apply pow_pos'; unfold Lb; lia).
  destruct f as [s|s| |s m e]; try contradiction.
  - cbn [inb] in Hf. cbn [SFmul inb].
    assert (S * lo / 2 ^ (- Lb) <= 0).
    { apply Z.div_le_upper_bound; lia. }
    assert (0 <= S * hi / 2 ^ (- Lb)) by (apply Z.div_pos; lia).
    pose proof (RV_mono _ _ H). pose proof (RV_mono _ _ H0). rewrite RV_0 in *. lia.
  - destruct Hf as [[Hlo Hhi] He]. rewrite emn_val in He.
    pose proof (SFmul_rounds false mc ec s m e ltac:(unfold Lb; lia)) as Hr.
    apply (rounds_inb _ _ _ _ Hr); [|exact Hl|exact Hh].
    set (X := cond_Zopp (xorb false s) (Z.pos mc * Z.pos m * 2 ^ (ec + e - Lb))).
    assert (HX : X * 2 ^ (- Lb) = S * sv (S754_finite s m e)).
    { unfold X, S; cbn [sv xorb].
      assert (2 ^ (ec + e - Lb) * 2 ^ (- Lb) = 2 ^ (ec - Lb) * 2 ^ (e - Lb)).
      { rewrite <- !Z.pow_add_r by (unfold Lb; lia). f_equal; lia. }
      transitivity (cond_Zopp s (Z.pos mc * Z.pos m * (2 ^ (ec + e - Lb) * 2 ^ (- Lb))));
        [destruct s; cbn [cond_Zopp]; ring|].
      rewrite H. destruct s; cbn [cond_Zopp]; ring. }
    split.
    + apply Z.div_le_upper_bound; [exact HB|]. nia.
    + apply Z.div_le_lower_bound; [exact HB|]. nia.
Qed.

Lemma add_inb sc mc ec f lo hi : -1074 <= ec -> inb f lo hi ->
  let C := sv (S754_finite sc mc ec) in
  RV C = C ->
  - 2 ^ 3171 <= RV (C + lo) -> RV (C + hi) <= 2 ^ 3171 ->
  inb (SFadd prec emax (S754_finite sc mc ec) f) (RV (C + lo)) (RV (C + hi)).
Proof.
  intros Hec Hf C HC Hl Hh.
  destruct f as [s|s| |s m e]; try contradiction.
  - cbn [inb] in Hf. cbn [SFadd inb]. fold C.
    pose proof (RV_mono (C + lo) C ltac:(lia)). pose proof (RV_mono C (C + hi) ltac:(lia)).
    rewrite emn_val. lia.
  - destruct Hf as [[Hlo Hhi] He]. rewrite emn_val in He.
    pose proof (SFadd_rounds sc mc ec s m e ltac:(unfold Lb; lia) ltac:(unfold Lb; lia)) as Hr.
    apply (rounds_inb _ _ _ _ Hr); [fold C; lia|exact Hl|exact Hh].
Qed.

Lemma inb_weaken f lo hi lo' hi' : inb f lo hi -> lo' <= lo -> hi <= hi' -> inb f lo' hi'.
Proof.
  intros H H1 H2. destruct f as [s|s| |s m e]; cbn [inb] in *; try contradiction; lia.
Qed.

Lemma valid_finite s m e : valid_binary (S754_finite s m e) = true ->
  -1074 <= e /\ Z.pos m < 2 ^ 53.
Proof.
  unfold valid_binary, bounded, canonical_mantissa. intros H.
  apply andb_prop in H as [H _]. apply Z.eqb_eq in H.
  assert (Hd : Z.pos (digits2_pos m) = Z.log2 (Z.pos m) + 1) by (rewrite <- Zdigits2_log2; reflexivity).
  rewrite Hd in H.
  unfold SpecFloat.fexp in H. change (SpecFloat.emin prec emax) with (-1074) in H.
  change prec with 53 in H.
  split; [lia|].
  apply Z.log2_lt_pow2; lia.
Qed.

Lemma SFltb_pos_finite m e m' e' :
  SFltb (S754_finite false m e) (S754_finite false m' e') = true ->
  e < e' \/ (e = e' /\ Z.pos m < Z.pos m').
Proof.
  unfold SFltb, SFcompare. destruct (Z.compare_spec e e') as [E|E|E].
  - subst e'. destruct (Pos.compare_cont Eq m m') eqn:C; try discriminate.
    assert (Hl : (m < m')%positive) by exact C. intros _. right; split; [reflexivity|lia].
  - intros _; left; exact E.
  - discriminate.
Qed.

Lemma r_inb r : (0 <=? r)%float = true -> (r <? 1)%float = true -> inb (Prim2SF r) 0 (2 ^ 2200).
Proof.
  rewrite FloatAxioms.leb_spec, FloatAxioms.ltb_spec.
  pose proof (FloatAxioms.Prim2SF_valid r) as Hv.
  change (Prim2SF 0) with (S754_zero false). change (Prim2SF 1) with (S754_finite false 4503599627370496 (-52)).
  destruct (Prim2SF r) as [s|s| |s m e]; cbn [inb]; intros H1 H2.
  - lia.
  - destruct s; discriminate.
  - discriminate.
  - destruct s; [discriminate|].
    destruct (valid_finite _ _ _ Hv) as [He Hm].
    apply SFltb_pos_finite in H2.
    rewrite emn_val. split; [|lia]. cbn [sv cond_Zopp].
    pose proof (pow_pos' (e - Lb) ltac:(unfold Lb; lia)).
    split; [lia|].
    destruct H2 as [E|[E Hm52]].
    2:{ subst e.
      assert (Z.pos m < 2 ^ 52) by (change (2 ^ 52) with (Z.pos 4503599627370496); lia).
      change (2 ^ 2200) with (2 ^ 52 * 2 ^ (-52 - Lb)).
      apply Z.mul_le_mono_nonneg_r; lia. }
    + assert (2 ^ 53 * 2 ^ (e - Lb) <= 2 ^ 2200).
      { rewrite <- Z.pow_add_r by (unfold Lb; lia). apply pow_le_mono'. unfold Lb; lia. }
      eapply Z.le_trans; [|exact H0]. apply Z.mul_le_mono_nonneg_r; lia.
Qed.

Lemma x_inb r : (0 <=? r)%float = true -> (r <? 1)%float = true ->
  inb (Prim2SF (100 * (1 + uniform (-0.1) 0.1 r))%float) (90 * 2 ^ 2200) (7740561859543041 * 2 ^ 2154).
Proof.
  intros H1 H2. unfold uniform.
  rewrite FloatAxioms.mul_spec, FloatAxioms.add_spec, FloatAxioms.add_spec, FloatAxioms.mul_spec.
  unfold SF64mul, SF64add.
  change (Prim2SF (0.1 - -0.1)) with (S754_finite false 7205759403792794 (-55)).
  change (Prim2SF (-0.1)) with (S754_finite true 7205759403792794 (-56)).
  change (Prim2SF 1) with (S754_finite false 4503599627370496 (-52)).
  change (Prim2SF 100) with (S754_finite false 7036874417766400 (-46)).
  pose proof (r_inb r H1 H2) as HA.
  pose proof (mul_inb 7205759403792794 (-55) _ _ _ ltac:(lia) HA) as HB. cbv zeta in HB.
  specialize (HB ltac:(apply Z.leb_le; vm_compute; reflexivity) ltac:(apply Z.leb_le; vm_compute; reflexivity)).
  apply (inb_weaken _ _ _ 0 (7205759403792794 * 2 ^ 2145)) in HB;
    [|apply Z.leb_le; vm_compute; reflexivity|apply Z.leb_le; vm_compute; reflexivity].
  pose proof (add_inb true 7205759403792794 (-56) _ _ _ ltac:(lia) HB) as HC. cbv zeta in HC.
  specialize (HC ltac:(vm_compute; reflexivity) ltac:(apply Z.leb_le; vm_compute; reflexivity) ltac:(apply Z.leb_le; vm_compute; reflexivity)).
  apply (inb_weaken _ _ _ (- (7205759403792794 * 2 ^ 2144)) (7205759403792794 * 2 ^ 2144)) in HC;
    [|apply Z.leb_le; vm_compute; reflexivity|apply Z.leb_le; vm_compute; reflexivity].
  pose proof (add_inb false 4503599627370496 (-52) _ _ _ ltac:(lia) HC) as HD. cbv zeta in HD.
  specialize (HD ltac:(vm_compute; reflexivity) ltac:(apply Z.leb_le; vm_compute; reflexivity) ltac:(apply Z.leb_le; vm_compute; reflexivity)).
  pose proof (mul_inb 7036874417766400 (-46) _ _ _ ltac:(lia) HD) as HE. cbv zeta in HE.
  specialize (HE ltac:(apply Z.leb_le; vm_compute; reflexivity) ltac:(apply Z.leb_le; vm_compute; reflexivity)).
  apply (inb_weaken _ _ _ _ _ HE); apply Z.leb_le; vm_compute; reflexivity.
Qed.

Lemma x_shape x : inb (Prim2SF x) (90 * 2 ^ 2200) (7740561859543041 * 2 ^ 2154) ->
  exists m, Prim2SF x = S754_finite false m (-46) /\ 6333186975989760 <= Z.pos m <= 7740561859543041.
Proof.
  pose proof (FloatAxioms.Prim2SF_valid x) as Hv.
  destruct (Prim2SF x) as [s|s| |s m e]; cbn [inb]; intros H; try contradiction.
  - exfalso. assert (0 < 90 * 2 ^ 2200) by (apply Z.mul_pos_pos; [lia|apply pow_pos'; lia]). lia.
  - destruct H as [[Hlo Hhi] He]. cbn [sv] in Hlo, Hhi.
    pose proof (pow_pos' (e - Lb) ltac:(rewrite emn_val in He; unfold Lb; lia)) as Hp.
    assert (H90 : 0 < 90 * 2 ^ 2200) by (apply Z.mul_pos_pos; [lia|apply pow_pos'; lia]).
    destruct s; cbn [cond_Zopp] in Hlo, Hhi.
    { exfalso. assert (0 < Z.pos m * 2 ^ (e - Lb)) by (apply Z.mul_pos_pos; lia). lia. }
    set (X := Z.pos m * 2 ^ (e - Lb)) in *.
    assert (HlX : Z.log2 X = 2206).
    { apply Z.le_antisymm.
      - assert (X <= 2 ^ 2207 - 1) by (apply (Z.le_trans _ _ _ Hhi); apply Z.leb_le; vm_compute; reflexivity).
        apply Z.lt_succ_r. apply Z.log2_lt_pow2; [lia|]. lia.
      - assert (2 ^ 2206 <= X) by (refine (Z.le_trans _ _ _ _ Hlo); apply Z.leb_le; vm_compute; reflexivity).
        apply Z.log2_le_pow2; lia. }
    unfold X in HlX. rewrite log2_mul_pow2' in HlX by (rewrite emn_val in He; unfold Lb; lia).
    unfold valid_binary, bounded, canonical_mantissa in Hv.
    apply andb_prop in Hv as [Hv _]. apply Z.eqb_eq in Hv.
    rewrite digits2_pos_size in Hv.
    assert (Hd : Z.pos (Pos.size m) = Z.log2 (Z.pos m) + 1)
      by (rewrite <- digits2_pos_size; exact (Zdigits2_log2 m)).
    rewrite Hd in Hv. unfold SpecFloat.fexp in Hv.
    change (SpecFloat.emin prec emax) with (-1074) in Hv. change prec with 53 in Hv.
    unfold Lb in HlX.
    assert (Ee : e = -46) by lia. subst e.
    exists m. split; [reflexivity|].
    unfold X in Hlo, Hhi. change (2 ^ (-46 - Lb)) with (2 ^ 2154) in Hlo, Hhi.
    assert (Hp2 : 0 < 2 ^ 2154) by (apply pow_pos'; lia).
    split.
    + apply (Z.mul_le_mono_pos_r _ _ (2 ^ 2154) Hp2).
      refine (Z.le_trans _ _ _ _ Hlo). apply Z.leb_le; vm_compute; reflexivity.
    + apply (Z.mul_le_mono_pos_r _ _ (2 ^ 2154) Hp2). exact Hhi.
Qed.

Lemma hundredths_ok_all : List.forallb hundredths_ok (List.map (fun k => 9000 + Z.of_nat k) (List.seq 0 2001)) = true.
Proof. vm_compute. reflexivity. Qed.

Lemma hundredths_ok_range n : 9000 <= n <= 11000 -> hundredths_ok n = true.
Proof.
  intros H. pose proof hundredths_ok_all as A. rewrite List.forallb_forall in A.
  apply A. replace n with (9000 + Z.of_nat (Z.to_nat (n - 9000))) by lia.
  apply (List.in_map (fun k : nat => 9000 + Z.of_nat k)). apply List.in_seq. lia.
Qed.

Lemma round2_range x : inb (Prim2SF x) (90 * 2 ^ 2200) (7740561859543041 * 2 ^ 2154) ->
  (90 <=? py_round2 x)%float = true /\ (py_round2 x <=? 110)%float = true /\
  py_round2 (py_round2 x) = py_round2 x.
Proof.
  intros H. destruct (x_shape x H) as [m [Hx Hm]].
  set (n := div_half_even (Z.pos m * 100) (2 ^ 46)).
  assert (Hn : 9000 <= n <= 11000).
  { split.
    - change 9000 with (div_half_even (6333186975989760 * 100) (2 ^ 46)).
      apply dhe_mono; [apply pow_pos'; lia|lia].
    - change 11000 with (div_half_even (7740561859543041 * 100) (2 ^ 46)).
      apply dhe_mono; [apply pow_pos'; lia|lia]. }
  assert (Hp : py_round2 x = nearest_hundredths false n).
  { unfold py_round2. rewrite Hx. cbv zeta.
    change (0 <=? -46) with false. cbv iota. change (2 ^ (- -46)) with (2 ^ 46). fold n.
    replace (n =? 0) with false by (symmetry; apply Z.eqb_neq; lia). reflexivity. }
  rewrite Hp.
  pose proof (hundredths_ok_range n Hn) as Hok. unfold hundredths_ok in Hok.
  apply andb_prop in Hok as [Hok Heq]. apply andb_prop in Hok as [H1 H2].
  apply FloatAxioms.Leibniz.eqb_spec in Heq.
  split; [exact H1|]. split; [exact H2|exact Heq].
Qed.

End Rounding.


(** ** The client's trades *)

Module ClientTrades.
Import Client.

Ltac guards :=
  repeat match goal with
  | H : to_upper ?i <> EmptyString |- context [bool_decide (to_upper ?i = EmptyString)] =>
      rewrite (bool_decide_eq_false_2 _ H)
  | H : (0 <? ?q) = true |- context [(?q <=? 0)] =>
      rewrite (FloatFacts.ltb_0_not_leb q H)
  | H : (0 <? ?p) = true |- context [js_truthy_num ?p] =>
      rewrite (FloatFacts.ltb_0_truthy p H)
  | H : (?a <=? ?b) = true |- context [(?b <? ?a)] =>
      rewrite (FloatFacts.leb_not_ltb a b H)
  end.

(** C1: a successful Buy of [q2 > 0] shares at an available price
    [p2 > 0] with [cash >= p2*q2] deducts [p2*q2] from the cash, and
    either re-averages an existing holding [(q1, p1)] to
    [(q1*p1 + q2*p2)/(q1+q2)] with quantity [q1+q2], or creates the
    holding [(q2, p2)]; in both cases its [currentPrice] becomes [p2]. *)
Theorem buy_updates_holding (pf : portfolio) (input : string) (q2 p2 : float) :
  to_upper input <> EmptyString ->
  (0 <? q2) = true -> (0 <? p2) = true -> (p2 * q2 <=? cash pf) = true ->
  (forall q1 p1 c1, stocks pf !! to_upper input = Some (mkHolding q1 p1 c1) ->
     buyStock pf input q2 (Some p2) =
       (mkPortfolio (cash pf - p2 * q2)
          (<[to_upper input := mkHolding (q1 + q2) ((q1 * p1 + q2 * p2) / (q1 + q2)) p2]>
             (stocks pf)),
        Bought q2 (to_upper input) p2)) /\
  (stocks pf !! to_upper input = None ->
     buyStock pf input q2 (Some p2) =
       (mkPortfolio (cash pf - p2 * q2)
          (<[to_upper input := mkHolding q2 p2 p2]> (stocks pf)),
        Bought q2 (to_upper input) p2)).
Proof.
  intros Hs Hq Hp Hc.
  unfold buyStock, fetchCurrentPrice; cbn zeta.
  guards; simpl; guards; simpl.
  split; [intros q1 p1 c1 Hl | intros Hl]; rewrite Hl; reflexivity.
Qed.

(** C2: a successful Sell of [q] shares, [0 < q <= h] for a holding of
    [h] shares, at an available price [p > 0] credits [p*q] to the cash,
    takes [q] from the holding, keeps its average price, and removes the
    holding exactly when the quantity left is [0]. *)
Theorem sell_updates_holding (pf : portfolio) (input : string) (q p h a c : float) :
  to_upper input <> EmptyString ->
  (0 <? q) = true -> (q <=? h) = true -> (0 <? p) = true ->
  stocks pf !! to_upper input = Some (mkHolding h a c) ->
  sellStock pf input q (Some p) =
    (mkPortfolio (cash pf + p * q)
       (if h - q =? 0 then delete (to_upper input) (stocks pf)
        else <[to_upper input := mkHolding (h - q) a c]> (stocks pf)),
     Sold q (to_upper input) p) /\
  stocks (fst (sellStock pf input q (Some p))) !! to_upper input =
    (if h - q =? 0 then None else Some (mkHolding (h - q) a c)).
Proof.
  intros Hs Hq Hh Hp Hl.
  assert (E : sellStock pf input q (Some p) =
    (mkPortfolio (cash pf + p * q)
       (if h - q =? 0 then delete (to_upper input) (stocks pf)
        else <[to_upper input := mkHolding (h - q) a c]> (stocks pf)),
     Sold q (to_upper input) p)).
  { unfold sellStock, fetchCurrentPrice; cbn zeta.
    guards; simpl; rewrite Hl; guards; simpl; guards; reflexivity. }
  split; [exact E |]. rewrite E; simpl.
  destruct (h - q =? 0).
  - apply lookup_delete_eq.
  - apply lookup_insert_eq.
Qed.

(** C3: a Buy or Sell that fails validation (non-positive quantity,
    price unavailable or zero, Buy without enough cash, Sell of more shares
    than held or of a symbol not held) ends in a failure alert and leaves
    the portfolio, cash and holdings, as it was. *)
Theorem failed_trade_unchanged (pf : portfolio) (input : string) (q : float) (resp : option float) :
  ((q <=? 0) = true \/ js_truthy_num (fetchCurrentPrice resp) = false \/
   (cash pf <? fetchCurrentPrice resp * q) = true ->
   buyStock pf input q resp = (pf, snd (buyStock pf input q resp)) /\
   is_failure (snd (buyStock pf input q resp)) = true) /\
  ((q <=? 0) = true \/ js_truthy_num (fetchCurrentPrice resp) = false \/
   stocks pf !! to_upper input = None \/
   (exists h a c, stocks pf !! to_upper input = Some (mkHolding h a c) /\ (h <? q) = true) ->
   sellStock pf input q resp = (pf, snd (sellStock pf input q resp)) /\
   is_failure (snd (sellStock pf input q resp)) = true).
Proof.
  split; intros Hf.
  - unfold buyStock; cbn zeta.
    destruct (bool_decide (to_upper input = EmptyString) || (q <=? 0)) eqn:G1;
      [simpl; auto |].
    apply orb_false_iff in G1 as [_ G1].
    destruct (js_truthy_num (fetchCurrentPrice resp)) eqn:G2; simpl; [| auto].
    destruct (cash pf <? fetchCurrentPrice resp * q) eqn:G3; simpl; [auto |].
    exfalso; destruct Hf as [H | [H | H]]; congruence.
  - unfold sellStock; cbn zeta.
    destruct (bool_decide (to_upper input = EmptyString) || (q <=? 0)) eqn:G1;
      [simpl; auto |].
    apply orb_false_iff in G1 as [_ G1].
    destruct (stocks pf !! to_upper input) as [[h a c] |] eqn:Hl; [| simpl; auto].
    destruct (h <? q) eqn:G2; [simpl; auto |].
    destruct (js_truthy_num (fetchCurrentPrice resp)) eqn:G3; simpl; [| auto].
    exfalso; destruct Hf as [H | [H | [H | (h' & a' & c' & H1 & H2)]]]; congruence.
Qed.

(** The cash after a successful Buy of [q] at [p] followed by a
    successful Sell of [q] at the same [p]. *)
Theorem buy_sell_cash (pf : portfolio) (input : string) (q p : float) :
  is_failure (snd (buyStock pf input q (Some p))) = false ->
  is_failure (snd (sellStock (fst (buyStock pf input q (Some p))) input q (Some p))) = false ->
  cash (fst (sellStock (fst (buyStock pf input q (Some p))) input q (Some p))) =
    (cash pf - p * q) + p * q.
Proof.
  unfold buyStock, sellStock, fetchCurrentPrice; cbn zeta.
  destruct (bool_decide (to_upper input = EmptyString) || (q <=? 0));
    [intros Hbad; cbn in Hbad; discriminate Hbad |].
  destruct (js_truthy_num p) eqn:Ep.
  2:{ replace (js_truthy_num 0) with false by reflexivity. intros Hbad; cbn in Hbad; discriminate Hbad. }
  rewrite Ep; simpl.
  destruct (cash pf <? p * q); [intros Hbad; cbn in Hbad; discriminate Hbad |]. simpl; intros _.
  repeat (case_match; simpl; try (intros Hbad; cbn in Hbad; discriminate Hbad)); intros _; reflexivity.
Qed.

(** C6, as stated, fails: from cash [4722.45], buying then selling 7
    shares of a symbol at [75.92] (both trades succeed) leaves the cash at
    [4722.450000000001]. *)
Lemma buy_sell_cash_counterexample :
  let pf := mkPortfolio 4722.45 ∅ in
  let r1 := buyStock pf "abc" 7 (Some 75.92) in
  let r2 := sellStock (fst r1) "abc" 7 (Some 75.92) in
  is_failure (snd r1) = false /\ is_failure (snd r2) = false /\
  cash (fst r2) = 4722.450000000001 /\ cash (fst r2) <> cash pf.
Proof.
  vm_compute. split; [reflexivity | split; [reflexivity | split; [reflexivity |]]].
  intros H. assert (E : (4722.450000000001 =? 4722.45) = false) by reflexivity.
  rewrite H in E. discriminate E.
Qed.

(** C10: a quantity that [parseInt] maps to [NaN] passes the
    [quantity <= 0] guard of both Buy and Sell; a Buy of it at a positive
    price passes the [cash < totalCost] check too, completes, and leaves
    the cash at [NaN]. *)
Theorem nan_quantity_accepted (pf : portfolio) (input : string) (q p : float) :
  is_nan q = true -> to_upper input <> EmptyString -> (0 <? p) = true ->
  (q <=? 0) = false /\
  snd (sellStock pf input q (Some p)) <> InvalidInput /\
  snd (buyStock pf input q (Some p)) = Bought q (to_upper input) p /\
  is_nan (cash (fst (buyStock pf input q (Some p)))) = true.
Proof.
  intros Hq Hs Hp.
  pose proof (FloatFacts.leb_nan_l q 0 Hq) as G.
  assert (Hc : (cash pf <? p * q) = false)
    by (apply FloatFacts.ltb_nan_r, FloatFacts.mul_nan_r, Hq).
  split; [exact G |].
  unfold buyStock, sellStock, fetchCurrentPrice; cbn zeta.
  rewrite (bool_decide_eq_false_2 _ Hs), G; simpl.
  pose proof (FloatFacts.ltb_0_truthy p Hp) as T.
  rewrite T; simpl. rewrite T; simpl. rewrite Hc; simpl.
  split; [repeat case_match; discriminate |].
  split; [reflexivity |].
  apply FloatFacts.sub_nan_r, FloatFacts.mul_nan_r, Hq.
Qed.

(** ** Witnesses: the theorems above at concrete trades *)

Lemma buy_updates_holding_witness :
  buyStock held_random "random" 5 (Some 110) =
    (mkPortfolio (cash held_random - 110 * 5)
       (<[to_upper "random" := mkHolding (10 + 5) ((10 * 100 + 5 * 110) / (10 + 5)) 110]>
          (stocks held_random)),
     Bought 5 (to_upper "random") 110).
Proof.
  apply (proj1 (buy_updates_holding held_random "random" 5 110
                  ltac:(vm_compute; discriminate) eq_refl eq_refl eq_refl) 10 100 100).
  vm_compute; reflexivity.
Defined.

Lemma sell_updates_holding_witness :
  stocks (fst (sellStock held_random "random" 10 (Some 110))) !! to_upper "random" =
    (if 10 - 10 =? 0 then None else Some (mkHolding (10 - 10) 100 100)).
Proof.
  apply (proj2 (sell_updates_holding held_random "random" 10 110 10 100 100
                  ltac:(vm_compute; discriminate) eq_refl eq_refl eq_refl
                  ltac:(vm_compute; reflexivity))).
Defined.

Lemma failed_trade_unchanged_witness :
  (buyStock initial_portfolio "abc" 200 (Some 100) =
     (initial_portfolio, snd (buyStock initial_portfolio "abc" 200 (Some 100))) /\
   is_failure (snd (buyStock initial_portfolio "abc" 200 (Some 100))) = true) /\
  (sellStock held_random "random" 11 (Some 100) =
     (held_random, snd (sellStock held_random "random" 11 (Some 100))) /\
   is_failure (snd (sellStock held_random "random" 11 (Some 100))) = true).
Proof.
  split.
  - apply (proj1 (failed_trade_unchanged initial_portfolio "abc" 200 (Some 100))).
    right; right; vm_compute; reflexivity.
  - apply (proj2 (failed_trade_unchanged held_random "random" 11 (Some 100))).
    right; right; right. exists 10, 100, 100. vm_compute; split; reflexivity.
Defined.

Lemma buy_sell_cash_witness :
  cash (fst (sellStock (fst (buyStock (mkPortfolio 4722.45 ∅) "abc" 7 (Some 75.92)))
                       "abc" 7 (Some 75.92))) =
    (4722.45 - 75.92 * 7) + 75.92 * 7.
Proof.
  apply (buy_sell_cash (mkPortfolio 4722.45 ∅) "abc" 7 75.92); vm_compute; reflexivity.
Defined.

Lemma nan_quantity_accepted_witness :
  (nan <=? 0) = false /\
  snd (sellStock held_random "random" nan (Some 100)) <> InvalidInput /\
  snd (buyStock held_random "random" nan (Some 100)) = Bought nan (to_upper "random") 100 /\
  is_nan (cash (fst (buyStock held_random "random" nan (Some 100)))) = true.
Proof.
  apply (nan_quantity_accepted held_random "random" nan 100); vm_compute; [reflexivity | discriminate | reflexivity].
Defined.

End ClientTrades.


(** ** The server's routes *)

Module ServerRoutes.
Import Py Server.

(** C7: for a symbol other than RANDOM, a history request that finds no
    data or raises makes [/get_stock_price] answer the price [0] and
    [/get_stock_price_chart] the empty chart, both as ordinary bodies; a
    raised exception is printed. *)
Theorem fetch_failure_sentinels (r : float) (yf : yfinance) (symbol e : string) :
  to_upper symbol <> "RANDOM" ->
  (yf (to_upper symbol) "1d" = Fetched [] ->
     api_get_stock_price r yf symbol = (Body (NInt 0), [])) /\
  (yf (to_upper symbol) "1d" = FetchRaised e ->
     api_get_stock_price r yf symbol =
       (Body (NInt 0), ["Error fetching price for " +:+ to_upper symbol +:+ ": " +:+ e])) /\
  (yf symbol "1y" = Fetched [] ->
     api_get_stock_price_chart yf symbol = (Body NoChart, [])) /\
  (yf symbol "1y" = FetchRaised e ->
     api_get_stock_price_chart yf symbol =
       (Body NoChart, ["Error fetching 1y history for " +:+ symbol +:+ ": " +:+ e])).
Proof.
  intros Hs.
  assert (E : String.eqb (to_upper symbol) "RANDOM" = false) by (apply String.eqb_neq; exact Hs).
  unfold api_get_stock_price, api_get_stock_price_chart; cbn zeta; rewrite E.
  repeat split; intros H; rewrite H; reflexivity.
Qed.

(** C9: whatever its casing, RANDOM has no price chart: the route answers
    the empty chart, and [get_stock_history] gives the empty series. *)
Theorem random_chart_empty (yf : yfinance) (symbol : string) :
  to_upper symbol = "RANDOM" ->
  api_get_stock_price_chart yf symbol = (Body NoChart, []) /\
  get_stock_history yf symbol = (([], []), []).
Proof.
  intros Hs. unfold api_get_stock_price_chart, get_stock_history.
  rewrite Hs; split; reflexivity.
Qed.

(** C8: for a symbol equal to RANDOM up to case, [/get_stock_price]
    answers [random_price r], a function of this call's draw [r] of
    [random.random()] alone: the data source [yf] is not consulted and
    nothing is printed ([get_stock_price] likewise). For every draw
    [0 <= r < 1] that price lies in [90, 110] and is left unchanged by
    [round(_, 2)]. *)
Theorem random_price_range (r : float) (yf : yfinance) (symbol : string) :
  to_upper symbol = "RANDOM" ->
  (0 <=? r) = true -> (r <? 1) = true ->
  api_get_stock_price r yf symbol = (Body (NFloat (random_price r)), []) /\
  get_stock_price r yf symbol = (NFloat (random_price r), []) /\
  (90 <=? random_price r) = true /\ (random_price r <=? 110) = true /\
  py_round2 (random_price r) = random_price r.
Proof.
  intros Hs H0 H1.
  destruct (Rounding.round2_range _ (Rounding.x_inb r H0 H1)) as [Hlo [Hhi Hfix]].
  unfold api_get_stock_price, get_stock_price. cbv zeta. rewrite Hs.
  split; [reflexivity|]. split; [reflexivity|].
  unfold random_price. split; [exact Hlo|]. split; [exact Hhi|exact Hfix].
Qed.

Section Chart.
Variable time : Type.
Variable strftime : time -> string.

Arguments get_portfolio_chart {time} strftime hist now body.
Arguments serve {time} strftime hist reqs.
Arguments render_history {time} strftime hist.

(** C4 (amended): a falsy body ([null], [false], [0], [""], [[]], [{}])
    gets the empty chart; a truthy body that is not a usable portfolio
    makes the handler raise (a server error). Either way no sample is
    appended. *)
Theorem portfolio_chart_rejected_body (hist : history time) (now : time) (body : pyval) :
  (truthy body = false ->
     get_portfolio_chart strftime hist now body = (Body NoChart, hist)) /\
  (truthy body = true -> compute_local_portfolio_value body = Raise ->
     get_portfolio_chart strftime hist now body = (ServerError, hist)).
Proof.
  unfold get_portfolio_chart; split; intros Ht; rewrite Ht; simpl; [reflexivity |].
  intros Hc; rewrite Hc; reflexivity.
Qed.



End Chart.

(** C4, as stated, fails: the body [{"foo": 1}] is not a portfolio, and
    the answer is a server error (a [KeyError] on ["cash"]), not the empty
    chart. *)
Lemma portfolio_chart_bad_body_counterexample :
  get_portfolio_chart nat (fun _ => "12:00:00") [] 0%nat (PDict [("foo", PInt 1)]) =
    (ServerError, []) /\
  fst (get_portfolio_chart nat (fun _ => "12:00:00") [] 0%nat (PDict [("foo", PInt 1)])) <>
    Body NoChart.
Proof. vm_compute. split; [reflexivity | discriminate]. Qed.


(** ** Witnesses *)

Lemma portfolio_chart_rejected_body_witness :
  get_portfolio_chart nat (fun _ => "12:00:00") [] 0%nat (PDict [("foo", PInt 1)]) =
    (ServerError, []).
Proof.
  apply (proj2 (portfolio_chart_rejected_body nat (fun _ => "12:00:00") [] 0%nat
                  (PDict [("foo", PInt 1)]))); vm_compute; reflexivity.
Defined.


Lemma fetch_failure_sentinels_witness :
  api_get_stock_price 0.5 no_data "aapl" = (Body (NInt 0), []).
Proof.
  apply (proj1 (fetch_failure_sentinels 0.5 no_data "aapl" "timeout"
                  ltac:(vm_compute; discriminate))); reflexivity.
Defined.

Lemma random_chart_empty_witness :
  api_get_stock_price_chart no_data "RaNdOm" = (Body NoChart, []).
Proof.
  apply (proj1 (random_chart_empty no_data "RaNdOm" ltac:(vm_compute; reflexivity))).
Defined.

Lemma random_price_range_witness :
  api_get_stock_price 0.5 no_data "RaNdOm" = (Body (NFloat (random_price 0.5)), []) /\
  (90 <=? random_price 0.5) = true /\ (random_price 0.5 <=? 110) = true.
Proof.
  destruct (random_price_range 0.5 no_data "RaNdOm" ltac:(vm_compute; reflexivity)
              ltac:(vm_compute; reflexivity) ltac:(vm_compute; reflexivity))
    as [A [_ [B [C _]]]].
  split; [exact A|]. split; [exact B|exact C].
Defined.

End ServerRoutes.


(** ** Signs of sums, differences and products of floats *)

Module FloatSigns.
Import Py FloatValues Rounding.
Local Open Scope Z_scope.

Lemma SFeqb_refl_notnan x : x <> S754_nan -> SFeqb x x = true.
Proof.
  intros H. destruct x as [s|s| |s m e]; try reflexivity.
  - destruct s; reflexivity.
  - congruence.
  - unfold SFeqb, SFcompare. destruct s; rewrite Z.compare_refl, Pos.compare_cont_refl; reflexivity.
Qed.

Lemma nonneg_spec x : ((0 <=? x)%float || is_nan x)%bool = sf_nonneg (Prim2SF x).
Proof.
  unfold is_nan. rewrite FloatAxioms.leb_spec, FloatAxioms.eqb_spec.
  change (Prim2SF 0) with (S754_zero false).
  destruct (Prim2SF x) as [s|s| |s m e].
  - reflexivity.
  - destruct s; reflexivity.
  - reflexivity.
  - rewrite SFeqb_refl_notnan by discriminate. destruct s; reflexivity.
Qed.

Lemma pos_spec x : ((0 <? x)%float || is_nan x)%bool = sf_pos (Prim2SF x).
Proof.
  unfold is_nan. rewrite FloatAxioms.ltb_spec, FloatAxioms.eqb_spec.
  change (Prim2SF 0) with (S754_zero false).
  destruct (Prim2SF x) as [s|s| |s m e].
  - rewrite SFeqb_refl_notnan by discriminate. destruct s; reflexivity.
  - destruct s; reflexivity.
  - reflexivity.
  - rewrite SFeqb_refl_notnan by discriminate. destruct s; reflexivity.
Qed.

Lemma ltb0_false x : (x <? 0)%float = false -> sf_nonneg (Prim2SF x) = true.
Proof.
  rewrite FloatAxioms.ltb_spec. change (Prim2SF 0) with (S754_zero false).
  destruct (Prim2SF x) as [s|s| |s m e]; try reflexivity; destruct s; cbn; congruence.
Qed.

Lemma leb0_false x : (x <=? 0)%float = false -> sf_pos (Prim2SF x) = true.
Proof.
  rewrite FloatAxioms.leb_spec. change (Prim2SF 0) with (S754_zero false).
  destruct (Prim2SF x) as [s|s| |s m e]; try reflexivity; try (destruct s); cbn; congruence.
Qed.

Lemma eqb0_false x : (x =? 0)%float = false -> forall s, Prim2SF x <> S754_zero s.
Proof.
  rewrite FloatAxioms.eqb_spec. change (Prim2SF 0) with (S754_zero false).
  intros H s E. rewrite E in H. destruct s; discriminate.
Qed.

Lemma pos_nonneg x : sf_pos x = true -> sf_nonneg x = true.
Proof. destruct x; cbn; congruence. Qed.

Lemma nonneg_nonzero_pos x : sf_nonneg x = true -> (forall s, x <> S754_zero s) -> sf_pos x = true.
Proof. destruct x as [s|s| |s m e]; cbn; [intros _ H; destruct (H s); reflexivity|auto..]. Qed.

Lemma binary_round_sign s m e : Lb <= e ->
  match binary_round prec emax s m e with
  | S754_zero s' | S754_infinity s' | S754_finite s' _ _ => s' = s
  | S754_nan => False
  end.
Proof.
  intros He. unfold binary_round.
  set (e' := SpecFloat.fexp prec emax (Z.pos (digits2_pos m) + e)).
  assert (He' : Lb <= e') by (unfold e', SpecFloat.fexp; change (SpecFloat.emin prec emax) with (-1074); unfold Lb; lia).
  pose proof (shl_align_spec m e e' He He') as [H1 _].
  destruct (shl_align m e e') as [mz ez]; cbn [fst snd] in *.
  pose proof (round_aux_V s mz ez H1) as H. cbv zeta in H.
  destruct (binary_round_aux prec emax s (Z.pos mz) ez loc_Exact); tauto.
Qed.

Lemma normalize_nonneg n e : Lb <= e -> 0 <= n -> sf_nonneg (binary_normalize prec emax n e false) = true.
Proof.
  intros He Hn. destruct n as [|p|p]; [reflexivity| |lia].
  cbn [binary_normalize]. pose proof (binary_round_sign false p e He) as H.
  destruct (binary_round prec emax false p e); cbn [sf_nonneg]; try subst; reflexivity || contradiction.
Qed.

Lemma valid_canonical s m e : valid_binary (S754_finite s m e) = true ->
  Z.max (Z.log2 (Z.pos m) + 1 + e - 53) (-1074) = e.
Proof.
  unfold valid_binary, bounded, canonical_mantissa. intros H.
  apply andb_prop in H as [H _]. apply Z.eqb_eq in H.
  assert (Hd : Z.pos (digits2_pos m) = Z.log2 (Z.pos m) + 1) by (rewrite <- Zdigits2_log2; reflexivity).
  rewrite Hd in H.
  unfold SpecFloat.fexp in H. change (SpecFloat.emin prec emax) with (-1074) in H.
  change prec with 53 in H. exact H.
Qed.

(** A binary64 value is its own rounding. *)
Lemma V_repr s m e : valid_binary (S754_finite s m e) = true ->
  V (Z.pos m * 2 ^ (e - Lb)) = Z.pos m * 2 ^ (e - Lb).
Proof.
  intros Hv. pose proof (valid_finite _ _ _ Hv) as [He _].
  pose proof (valid_canonical _ _ _ Hv) as Hc.
  assert (Hx : cx (Z.pos m * 2 ^ (e - Lb)) = e).
  { rewrite cx_eq. unfold mag. rewrite log2_mul_pow2' by (unfold Lb; lia). lia. }
  unfold V. rewrite Hx. rewrite dhe_exact by (apply pow_pos'; unfold Lb; lia). reflexivity.
Qed.

Lemma exp_lt_value m1 e1 m2 e2 :
  valid_binary (S754_finite false m1 e1) = true -> valid_binary (S754_finite false m2 e2) = true ->
  e1 < e2 -> Z.pos m1 * 2 ^ (e1 - Lb) < Z.pos m2 * 2 ^ (e2 - Lb).
Proof.
  intros V1 V2 He.
  destruct (valid_finite _ _ _ V1) as [He1 Hm1].
  destruct (valid_finite _ _ _ V2) as [He2 Hm2].
  pose proof (valid_canonical _ _ _ V2) as Hc2.
  assert (Hl2 : Z.log2 (Z.pos m2) = 52) by (pose proof (Z.log2_lt_pow2 (Z.pos m2) 53 ltac:(lia)); lia).
  pose proof (Z.log2_spec (Z.pos m2) ltac:(lia)) as [Hlo _]. rewrite Hl2 in Hlo.
  assert (Hp : 2 ^ (e2 - Lb) = 2 * 2 ^ (e2 - 1 - Lb)) by (rewrite <- Z.pow_succ_r by (unfold Lb; lia); f_equal; lia).
  assert (Hq : 2 ^ (e1 - Lb) <= 2 ^ (e2 - 1 - Lb)) by (apply pow_le_mono'; unfold Lb; lia).
  pose proof (pow_pos' (e1 - Lb) ltac:(unfold Lb; lia)).
  assert (Z.pos m1 * 2 ^ (e1 - Lb) < 2 ^ 53 * 2 ^ (e1 - Lb)) by (apply Z.mul_lt_mono_pos_r; lia).
  assert (2 ^ 53 * 2 ^ (e1 - Lb) <= 2 ^ 53 * 2 ^ (e2 - 1 - Lb)) by (apply Z.mul_le_mono_nonneg_l; lia).
  assert (2 ^ 53 * 2 ^ (e2 - 1 - Lb) = 2 ^ 52 * 2 ^ (e2 - Lb)) by (rewrite Hp; change (2 ^ 53) with (2 * 2 ^ 52); ring).
  assert (2 ^ 52 * 2 ^ (e2 - Lb) <= Z.pos m2 * 2 ^ (e2 - Lb)) by (apply Z.mul_le_mono_nonneg_r; lia).
  lia.
Qed.

Lemma not_ltb_value s1 m1 e1 s2 m2 e2 :
  valid_binary (S754_finite s1 m1 e1) = true -> valid_binary (S754_finite s2 m2 e2) = true ->
  SFltb (S754_finite s1 m1 e1) (S754_finite s2 m2 e2) = false ->
  sv (S754_finite s2 m2 e2) <= sv (S754_finite s1 m1 e1).
Proof.
  intros V1 V2 H. cbn [sv].
  pose proof (pow_pos' (e1 - Lb) ltac:(destruct (valid_finite _ _ _ V1); unfold Lb; lia)).
  pose proof (pow_pos' (e2 - Lb) ltac:(destruct (valid_finite _ _ _ V2); unfold Lb; lia)).
  assert (P1 : 0 < Z.pos m1 * 2 ^ (e1 - Lb)) by lia.
  assert (P2 : 0 < Z.pos m2 * 2 ^ (e2 - Lb)) by lia.
  assert (V1' : valid_binary (S754_finite false m1 e1) = true) by exact V1.
  assert (V2' : valid_binary (S754_finite false m2 e2) = true) by exact V2.
  unfold SFltb, SFcompare in H.
  destruct s1, s2; cbn [cond_Zopp].
  - destruct (Z.compare_spec e1 e2) as [E|E|E].
    + subst e2. destruct (Pos.compare_cont Eq m1 m2) eqn:C; cbn in H; try discriminate.
      * apply Pos.compare_eq in C. subst; lia.
      * assert (Hl : (m1 < m2)%positive) by exact C.
        assert (Z.pos m1 < Z.pos m2) by lia. apply Z.opp_le_mono. rewrite !Z.opp_involutive.
        apply Z.mul_le_mono_nonneg_r; lia.
    + pose proof (exp_lt_value _ _ _ _ V1' V2' E). lia.
    + discriminate.
  - cbn in H; discriminate.
  - lia.
  - destruct (Z.compare_spec e1 e2) as [E|E|E].
    + subst e2. destruct (Pos.compare_cont Eq m1 m2) eqn:C; try discriminate.
      * apply Pos.compare_eq in C. subst; lia.
      * assert (Hl : (m2 < m1)%positive) by (apply Pos.gt_lt; exact C).
        apply Z.mul_le_mono_nonneg_r; lia.
    + discriminate.
    + pose proof (exp_lt_value _ _ _ _ V2' V1' E). lia.
Qed.

Lemma SFadd_nonneg a b : valid_binary a = true -> valid_binary b = true ->
  sf_nonneg a = true -> sf_nonneg b = true -> sf_nonneg (SF64add a b) = true.
Proof.
  intros Va Vb Ha Hb. unfold SF64add.
  destruct a as [sa|sa| |sa ma ea], b as [sb|sb| |sb mb eb];
    cbn [sf_nonneg negb] in Ha, Hb; try (destruct sa; try discriminate); try (destruct sb; try discriminate);
    try reflexivity.
  unfold SFadd. cbn [cond_Zopp].
  destruct (valid_finite _ _ _ Va), (valid_finite _ _ _ Vb).
  apply normalize_nonneg; [unfold Lb; lia|].
  match goal with |- 0 <= Z.pos ?x + Z.pos ?y => pose proof (Pos2Z.is_pos x); pose proof (Pos2Z.is_pos y) end.
  lia.
Qed.

Lemma SFadd_pos a b : valid_binary a = true -> valid_binary b = true ->
  sf_pos a = true -> sf_pos b = true -> sf_pos (SF64add a b) = true.
Proof.
  intros Va Vb Ha Hb.
  assert (Hn : sf_nonneg (SF64add a b) = true) by (apply SFadd_nonneg; auto using pos_nonneg).
  apply nonneg_nonzero_pos; [exact Hn|].
  destruct a as [sa|sa| |sa ma ea], b as [sb|sb| |sb mb eb];
    cbn [sf_pos negb] in Ha, Hb; try discriminate; try (destruct sa; try discriminate);
    try (destruct sb; try discriminate); unfold SF64add; try (intros s; cbn; discriminate).
  destruct (valid_finite _ _ _ Va), (valid_finite _ _ _ Vb).
  pose proof (SFadd_rounds false ma ea false mb eb ltac:(unfold Lb; lia) ltac:(unfold Lb; lia)) as R.
  intros s E. unfold SF64add in E. rewrite E in R. cbn [rounds_to] in R.
  revert R. cbn [sv cond_Zopp].
  pose proof (pow_pos' (eb - Lb) ltac:(unfold Lb; lia)).
  set (A := Z.pos ma * 2 ^ (ea - Lb)). set (B := Z.pos mb * 2 ^ (eb - Lb)).
  assert (0 < A) by (unfold A; pose proof (pow_pos' (ea - Lb) ltac:(unfold Lb; lia)); lia).
  assert (0 < B) by (unfold B; lia).
  unfold RV. replace (A + B <? 0) with false by (symmetry; apply Z.ltb_ge; lia).
  pose proof (V_mono A (A + B) ltac:(lia) ltac:(lia)) as M.
  pose proof (V_repr false ma ea Va) as W. fold A in W.
  lia.
Qed.

Lemma SFmul_nonneg a b : valid_binary a = true -> valid_binary b = true ->
  sf_nonneg a = true -> sf_nonneg b = true -> sf_nonneg (SF64mul a b) = true.
Proof.
  intros Va Vb Ha Hb. unfold SF64mul.
  destruct a as [sa|sa| |sa ma ea], b as [sb|sb| |sb mb eb];
    cbn [sf_nonneg negb] in Ha, Hb; try (destruct sa; try discriminate); try (destruct sb; try discriminate);
    try reflexivity.
  unfold SFmul. cbn [xorb].
  destruct (valid_finite _ _ _ Va), (valid_finite _ _ _ Vb).
  pose proof (round_aux_V false (ma * mb) (ea + eb) ltac:(unfold Lb; lia)) as Hr. cbv zeta in Hr.
  destruct (binary_round_aux prec emax false (Z.pos (ma * mb)) (ea + eb) loc_Exact);
    cbn [sf_nonneg]; try reflexivity; destruct Hr as [Hr _]; subst; reflexivity.
Qed.

Lemma SFsub_nonneg a b : valid_binary a = true -> valid_binary b = true ->
  SFltb a b = false -> sf_nonneg (SF64sub a b) = true.
Proof.
  intros Va Vb Hl. unfold SF64sub.
  destruct a as [sa|sa| |sa ma ea], b as [sb|sb| |sb mb eb];
    try (destruct sa); try (destruct sb); try reflexivity; cbn in Hl; try discriminate.
  all: unfold SFsub; cbn [cond_Zopp].
  all: pose proof (not_ltb_value _ _ _ _ _ _ Va Vb Hl) as Hv; cbn [sv cond_Zopp] in Hv.
  all: destruct (valid_finite _ _ _ Va), (valid_finite _ _ _ Vb).
  all: set (ez := Z.min ea eb).
  all: pose proof (shl_align_spec ma ea ez ltac:(unfold Lb; lia) ltac:(unfold ez, Lb; lia)) as [_ [Ax Ex]].
  all: pose proof (shl_align_spec mb eb ez ltac:(unfold Lb; lia) ltac:(unfold ez, Lb; lia)) as [_ [Ay Ey]].
  all: rewrite Ex in Ax; rewrite Ey in Ay.
  all: replace (Z.min ea ez) with ez in Ax by (unfold ez; lia).
  all: replace (Z.min eb ez) with ez in Ay by (unfold ez; lia).
  all: apply normalize_nonneg; [unfold ez, Lb; lia|].
  all: pose proof (pow_pos' (ez - Lb) ltac:(unfold ez, Lb; lia)).
  all: set (X := Z.pos (fst (shl_align ma ea ez))) in *; set (Y := Z.pos (fst (shl_align mb eb ez))) in *.
  all: nia.
Qed.

End FloatSigns.


(** ** The store's invariants *)

Module StoreFacts.
Import Client FloatValues FloatSigns.

Lemma fadd_nonneg x y : ((0 <=? x) || is_nan x)%bool = true -> ((0 <=? y) || is_nan y)%bool = true ->
  ((0 <=? x + y) || is_nan (x + y))%bool = true.
Proof.
  rewrite !nonneg_spec, FloatAxioms.add_spec. intros. apply SFadd_nonneg; auto using FloatAxioms.Prim2SF_valid.
Qed.

Lemma fadd_pos x y : ((0 <? x) || is_nan x)%bool = true -> ((0 <? y) || is_nan y)%bool = true ->
  ((0 <? x + y) || is_nan (x + y))%bool = true.
Proof.
  rewrite !pos_spec, FloatAxioms.add_spec. intros. apply SFadd_pos; auto using FloatAxioms.Prim2SF_valid.
Qed.

Lemma fmul_nonneg x y : ((0 <=? x) || is_nan x)%bool = true -> ((0 <=? y) || is_nan y)%bool = true ->
  ((0 <=? x * y) || is_nan (x * y))%bool = true.
Proof.
  rewrite !nonneg_spec, FloatAxioms.mul_spec. intros. apply SFmul_nonneg; auto using FloatAxioms.Prim2SF_valid.
Qed.

Lemma fsub_nonneg x y : (x <? y) = false -> ((0 <=? x - y) || is_nan (x - y))%bool = true.
Proof.
  rewrite nonneg_spec, FloatAxioms.sub_spec, FloatAxioms.ltb_spec. intros.
  apply SFsub_nonneg; auto using FloatAxioms.Prim2SF_valid.
Qed.

Lemma fsub_pos x y : (x <? y) = false -> (x - y =? 0) = false -> ((0 <? x - y) || is_nan (x - y))%bool = true.
Proof.
  intros H1 H2. pose proof (fsub_nonneg x y H1) as H. rewrite nonneg_spec in H. rewrite pos_spec.
  apply nonneg_nonzero_pos; [exact H|]. apply eqb0_false; exact H2.
Qed.

Lemma leb0_pos x : (x <=? 0) = false -> ((0 <? x) || is_nan x)%bool = true.
Proof. intros H. rewrite pos_spec. apply leb0_false, H. Qed.

Lemma ltb0_nonneg x : (x <? 0) = false -> ((0 <=? x) || is_nan x)%bool = true.
Proof. intros H. rewrite nonneg_spec. apply ltb0_false, H. Qed.

Lemma pos_to_nonneg x : ((0 <? x) || is_nan x)%bool = true -> ((0 <=? x) || is_nan x)%bool = true.
Proof. rewrite pos_spec, nonneg_spec. apply pos_nonneg. Qed.

(** X1: a buy or a sell, successful or not, leaves the holding of every
    symbol other than the (upper-cased) one traded as it was. *)
Theorem trade_other_holdings (pf : portfolio) (input : string) (quantity : float)
    (resp : option float) (s : string) :
  s <> to_upper input ->
  stocks (fst (buyStock pf input quantity resp)) !! s = stocks pf !! s /\
  stocks (fst (sellStock pf input quantity resp)) !! s = stocks pf !! s.
Proof.
  intros Hs. split.
  - unfold buyStock; cbv zeta.
    repeat case_match; simpl; try reflexivity; rewrite lookup_insert_ne; congruence.
  - unfold sellStock; cbv zeta.
    repeat case_match; simpl; try reflexivity;
      [rewrite lookup_delete_ne | rewrite lookup_insert_ne]; congruence.
Qed.

(** X2: if every held quantity is positive (or [NaN]), it stays so after
    any buy, any sell and any refresh tick: no holding is ever left with a
    zero or negative quantity. *)
Theorem quantities_stay_positive (pf : portfolio) (input : string) (quantity : float)
    (resp : option float) :
  qty_ok pf ->
  qty_ok (fst (buyStock pf input quantity resp)) /\
  qty_ok (fst (sellStock pf input quantity resp)) /\
  qty_ok (tick pf resp).
Proof.
  unfold qty_ok. intros H. split; [|split].
  - unfold buyStock; cbv zeta.
    destruct (bool_decide _ || (quantity <=? 0))%bool eqn:Hv; [exact H|].
    apply orb_false_iff in Hv as [_ Hq].
    repeat case_match; simpl; try exact H; apply map_Forall_insert_2; try exact H; simpl.
    + apply fadd_pos; [|apply leb0_pos, Hq].
      match goal with E : stocks pf !! _ = Some _ |- _ => apply (H _ _ E) end.
    + apply leb0_pos, Hq.
  - unfold sellStock; cbv zeta.
    destruct (bool_decide _ || (quantity <=? 0))%bool eqn:Hv; [exact H|].
    repeat case_match; simpl; try exact H.
    + apply map_Forall_delete, H.
    + apply map_Forall_insert_2; [|exact H]. simpl. apply fsub_pos; assumption.
  - unfold tick. repeat case_match; try exact H. simpl.
    apply map_Forall_insert_2; [|exact H]. simpl.
    match goal with E : stocks pf !! _ = Some _ |- _ => apply (H _ _ E) end.
Qed.

(** X3: a buy that goes through never leaves the cash negative (it is
    [>= 0], or [NaN] when the cost is [NaN]), whatever the cash was. *)
Theorem buy_cash_nonneg (pf : portfolio) (input : string) (quantity : float)
    (resp : option float) :
  is_failure (snd (buyStock pf input quantity resp)) = false ->
  cash_ok (fst (buyStock pf input quantity resp)).
Proof.
  unfold buyStock, cash_ok; cbv zeta.
  repeat case_match; simpl; try discriminate; intros _; apply fsub_nonneg; assumption.
Qed.

(** X4: a sell at a fetched price that is not negative keeps a
    non-negative (or [NaN]) cash non-negative (or [NaN]). *)
Theorem sell_cash_nonneg (pf : portfolio) (input : string) (quantity : float)
    (resp : option float) :
  cash_ok pf -> (fetchCurrentPrice resp <? 0) = false ->
  cash_ok (fst (sellStock pf input quantity resp)).
Proof.
  unfold sellStock, cash_ok; cbv zeta. intros Hc Hp.
  destruct (bool_decide _ || (quantity <=? 0))%bool eqn:Hv; [exact Hc|].
  apply orb_false_iff in Hv as [_ Hq].
  repeat case_match; simpl; try exact Hc;
    (apply fadd_nonneg; [exact Hc|apply fmul_nonneg; [apply ltb0_nonneg, Hp|apply pos_to_nonneg, leb0_pos, Hq]]).
Qed.

(** ** Witnesses *)

Lemma trade_other_holdings_witness :
  stocks (fst (buyStock held_random "aapl" 1 (Some 100))) !! "RANDOM" = stocks held_random !! "RANDOM" /\
  stocks (fst (sellStock held_random "aapl" 1 (Some 100))) !! "RANDOM" = stocks held_random !! "RANDOM".
Proof.
  apply (trade_other_holdings held_random "aapl" 1 (Some 100) "RANDOM"); vm_compute; discriminate.
Defined.

Lemma quantities_stay_positive_witness :
  qty_ok (fst (buyStock held_random "random" 5 (Some 110))) /\
  qty_ok (fst (sellStock held_random "random" 5 (Some 110))) /\
  qty_ok (tick held_random (Some 110)).
Proof.
  apply (quantities_stay_positive held_random "random" 5 (Some 110)).
  apply map_Forall_singleton; reflexivity.
Defined.

Lemma buy_cash_nonneg_witness : cash_ok (fst (buyStock initial_portfolio "aapl" 3 (Some 150))).
Proof. apply (buy_cash_nonneg initial_portfolio "aapl" 3 (Some 150)); vm_compute; reflexivity. Defined.

Lemma sell_cash_nonneg_witness : cash_ok (fst (sellStock held_random "random" 4 (Some 110))).
Proof. apply (sell_cash_nonneg held_random "random" 4 (Some 110)); vm_compute; reflexivity. Defined.

End StoreFacts.


(** ** The routes and their helpers *)

Module RouteFacts.
Import Py Server.

(** X7: the chart route draws exactly the dates and closes that
    [get_stock_history] returns, and the empty chart when it returns
    none. *)
Theorem chart_route_plots_history (yf : yfinance) (symbol : string) :
  fst (api_get_stock_price_chart yf symbol) =
    match fst (get_stock_history yf symbol) with
    | ([], _) => Body NoChart
    | (xs, ys) => Body (Plot xs (map NFloat ys))
    end.
Proof.
  unfold api_get_stock_price_chart, get_stock_history.
  destruct (String.eqb _ _); [reflexivity|].
  destruct (yf _ _) as [[|[d c] hist]|e]; simpl; [reflexivity| |reflexivity].
  rewrite map_map; reflexivity.
Qed.

Section Chart.
Variable time : Type.
Variable strftime : time -> string.

Lemma add_holdings_bad_item (items : list (string * pyval)) (s : string) (d : list (string * pyval)) :
  In (s, PDict d) items ->
  dict_get d "avg_price" = None \/ dict_get d "quantity" = None \/ dict_get d "currentPrice" = Some PNone ->
  forall total, add_holdings total items = Raise.
Proof.
  intros Hin Hbad. induction items as [|[s' v] items IH]; [destruct Hin|].
  intros total. destruct Hin as [E|Hin].
  - injection E as -> ->. simpl.
    destruct Hbad as [Ha|[Hq|Hc]].
    + rewrite Ha; reflexivity.
    + destruct (dict_get d "avg_price"); [|reflexivity]. rewrite Hq; reflexivity.
    + destruct (dict_get d "avg_price"); [|reflexivity]. rewrite Hc; simpl.
      destruct (dict_get d "quantity"); reflexivity.
  - simpl. destruct v; try reflexivity.
    destruct (dict_get kv "avg_price") as [avg|]; [|reflexivity].
    destruct (dict_get kv "quantity") as [qv|]; [|reflexivity].
    destruct (as_num _) as [c|]; [|reflexivity].
    destruct (as_num qv) as [q|]; [|reflexivity].
    simpl. destruct (num_mul c q) as [p|]; simpl; [|reflexivity].
    destruct (num_add total p) as [t|]; simpl; [|reflexivity].
    apply IH, Hin.
Qed.

(** X8: a holding without [avg_price] or [quantity], or whose
    [currentPrice] is [null], makes the chart request a server error,
    whatever the other holdings; no sample is recorded. *)
Theorem malformed_holding_server_error (hist : history time) (now : time)
    (kv items d : list (string * pyval)) (s : string) :
  dict_get kv "stocks" = Some (PDict items) ->
  In (s, PDict d) items ->
  dict_get d "avg_price" = None \/ dict_get d "quantity" = None \/ dict_get d "currentPrice" = Some PNone ->
  get_portfolio_chart time strftime hist now (PDict kv) = (ServerError, hist).
Proof.
  intros Hs Hin Hbad. unfold get_portfolio_chart.
  assert (Ht : truthy (PDict kv) = true) by (destruct kv; [discriminate|reflexivity]).
  rewrite Ht; simpl. unfold compute_local_portfolio_value. rewrite Hs.
  destruct (dict_get kv "cash") as [cv|]; [|reflexivity].
  destruct (as_num cv) as [t|]; [|reflexivity].
  simpl. rewrite (add_holdings_bad_item items s d Hin Hbad t). reflexivity.
Qed.

(** X9: the history is append-only: after a sequence of requests it is
    the earlier history followed, in order, by one sample per request
    whose body is truthy and can be valued. *)
Theorem history_append_only (hist : history time) (reqs : list (time * pyval)) :
  snd (serve time strftime hist reqs) =
    hist ++ List.flat_map (fun q =>
                 if truthy (snd q) then
                   match compute_local_portfolio_value (snd q) with
                   | Ok v => [(fst q, v)]
                   | Raise => []
                   end
                 else []) reqs.
Proof.
  revert hist; induction reqs as [| [now body] reqs IH]; intros hist; simpl;
    [rewrite app_nil_r; reflexivity|].
  unfold get_portfolio_chart.
  destruct (truthy body); simpl.
  - destruct (compute_local_portfolio_value body) as [v|]; simpl.
    + destruct (serve time strftime (hist ++ [(now, v)]) reqs) as [resps h''] eqn:Es; simpl.
      specialize (IH (hist ++ [(now, v)])); rewrite Es in IH; simpl in IH.
      rewrite IH, <- app_assoc; reflexivity.
    + destruct (serve time strftime hist reqs) as [resps h''] eqn:Es; simpl.
      specialize (IH hist); rewrite Es in IH; exact IH.
  - destruct (serve time strftime hist reqs) as [resps h''] eqn:Es; simpl.
    specialize (IH hist); rewrite Es in IH; exact IH.
Qed.

End Chart.
(** ** Witnesses *)

Lemma malformed_holding_server_error_witness :
  get_portfolio_chart nat (fun _ => "12:00:00") [] 0%nat
    (PDict [("cash", PInt 100);
            ("stocks", PDict [("AAPL", PDict [("quantity", PInt 1); ("currentPrice", PInt 5)])])]) =
    (ServerError, []).
Proof.
  apply (malformed_holding_server_error nat (fun _ => "12:00:00") [] 0%nat
           [("cash", PInt 100);
            ("stocks", PDict [("AAPL", PDict [("quantity", PInt 1); ("currentPrice", PInt 5)])])]
           [("AAPL", PDict [("quantity", PInt 1); ("currentPrice", PInt 5)])]
           [("quantity", PInt 1); ("currentPrice", PInt 5)] "AAPL");
    [reflexivity | simpl; left; reflexivity | left; reflexivity].
Defined.

End RouteFacts.


(** ** The client and the server together *)

Module WireFacts.
Import Py Server Client Wire.

Lemma json_number_float x f : json_number x = PFloat f -> f = x /\ exists s m e, Prim2SF x = S754_finite s m e.
Proof.
  unfold json_number. destruct (Prim2SF x) as [s|s| |s m e]; try discriminate.
  destruct (_ && _)%bool; [discriminate|]. intros H; injection H as <-. eauto.
Qed.

Lemma add_zero_finite x s m e : Prim2SF x = S754_finite s m e -> x + 0 = x.
Proof.
  intros E. apply FloatAxioms.Prim2SF_inj. rewrite FloatAxioms.add_spec, E. reflexivity.
Qed.

(** X10: when RANDOM is the only holding and its quantity is an integer,
    a refresh whose price fetch fails sets its [currentPrice] to [0]: the
    table then shows it at its average price, but the portfolio posted by
    the same tick is valued as the cash alone. *)
Theorem failed_refresh_values_random_at_zero (pf : portfolio) (q a c : float) (zq : Z) :
  stocks pf = {[ "RANDOM" := mkHolding q a c ]} ->
  json_number q = PInt zq ->
  stocks (tick pf None) = {[ "RANDOM" := mkHolding q a 0 ]} /\
  displayed_price (mkHolding q a 0) = a /\
  compute_local_portfolio_value (portfolio_json (cash (tick pf None)) [("RANDOM", mkHolding q a 0)]) =
    compute_local_portfolio_value (portfolio_json (cash (tick pf None)) []).
Proof.
  intros Hs Hq. unfold tick. rewrite Hs, lookup_singleton. simpl.
  split; [rewrite insert_singleton; reflexivity|]. split; [reflexivity|].
  unfold portfolio_json, compute_local_portfolio_value, json_holding. simpl. rewrite Hq.
  change (json_number 0) with (PInt 0). simpl.
  destruct (json_number (cash pf)) as [|b|z|f|s|l|kv] eqn:Hc; simpl; try reflexivity;
    try (rewrite Z.add_0_r; reflexivity).
  destruct (json_number_float _ _ Hc) as [-> [s [m [e E]]]].
    change (int_to_float 0) with (Ok 0). simpl.
    do 3 f_equal. exact (add_zero_finite _ _ _ _ E).
Qed.
(** ** Witnesses *)

Lemma failed_refresh_values_random_at_zero_witness :
  stocks (tick held_random None) = {[ "RANDOM" := mkHolding 10 100 0 ]} /\
  displayed_price (mkHolding 10 100 0) = 100 /\
  compute_local_portfolio_value (portfolio_json (cash (tick held_random None)) [("RANDOM", mkHolding 10 100 0)]) =
    compute_local_portfolio_value (portfolio_json (cash (tick held_random None)) []).
Proof.
  apply (failed_refresh_values_random_at_zero held_random 10 100 100 10); vm_compute; reflexivity.
Defined.

End WireFacts.
